(** * robottools.library.keywords: the Keyword handler

    A shallow embedding of [robottools/library/keywords/__init__.py]
    (class [Keyword]): argument-spec introspection ([args]), the
    documentation accessor ([__doc__]) and the invocation protocol
    ([__call__]: implicit session/context switching, dispatch, switching
    back, re-raise).

    Python objects are modelled by records, dictionaries by association
    lists in insertion order, exceptions by an error component of a
    state-and-error monad over the Test Library instance. *)

From Stdlib Require Import String Ascii List ZArith Bool Lia DecimalString.
Import ListNotations.

Set Implicit Arguments.
Open Scope string_scope.

(** ** Python values and helpers *)

(** The values that travel through a Keyword call as arguments, defaults,
    aliases and results. *)
Inductive Value : Type :=
| VNone
| VBool (b : bool)
| VInt (z : Z)
| VStr (s : string).

Definition Value_eq_dec (a b : Value) : {a = b} + {a <> b}.
Proof. decide equality; [apply bool_dec | apply Z.eq_dec | apply string_dec]. Defined.

(** [str(v)], as used by ['%s' % v]. *)
Definition py_str (v : Value) : string :=
  match v with
  | VNone => "None"
  | VBool true => "True"
  | VBool false => "False"
  | VInt z => NilZero.string_of_int (Z.to_int z)
  | VStr s => s
  end.

(** ['%s=%s' % (a, b)] *)
Definition fmt_eq (a : string) (b : Value) : string := a ++ "=" ++ py_str b.

Definition newline : string := String "010"%char EmptyString.

(** Truth value of an optional string attribute ([None] and [''] are false). *)
Definition truthy_str (o : option string) : bool :=
  match o with
  | Some (String _ _) => true
  | _ => false
  end.

(** The string held by an optional string attribute that is true. *)
Definition opt_str (o : option string) : string :=
  match o with Some s => s | None => "" end.

(** Truth value of an optional sequence ([None] and the empty one are false). *)
Definition truthy_seq {A} (o : option (list A)) : bool :=
  match o with
  | Some (_ :: _) => true
  | _ => false
  end.

(** [range(a, b)] *)
Definition py_range (a b : Z) : list Z :=
  map (fun i => (a + Z.of_nat i)%Z) (seq 0 (Z.to_nat (b - a))).

(** [l[i]] with Python's negative indices; [None] stands for [IndexError]. *)
Definition py_getitem {A} (l : list A) (i : Z) : option A :=
  let n := Z.of_nat (length l) in
  if (i <? 0)%Z
  then if (n + i <? 0)%Z then None else nth_error l (Z.to_nat (n + i))
  else nth_error l (Z.to_nat i).

(** [c in s] for a one-character [c]. *)
Fixpoint str_contains (c : ascii) (s : string) : bool :=
  match s with
  | EmptyString => false
  | String a s' => if Ascii.eqb a c then true else str_contains c s'
  end.

(** [s.split(c, 1)] for a string [s] that contains [c]: the text before the
    first [c] and the text after it. *)
Fixpoint str_split1 (c : ascii) (s : string) : string * string :=
  match s with
  | EmptyString => (EmptyString, EmptyString)
  | String a s' =>
      if Ascii.eqb a c then (EmptyString, s')
      else let '(first, rest) := str_split1 c s' in (String a first, rest)
  end.

(** [s in l] for a list of strings. *)
Definition str_in (s : string) (l : list string) : bool :=
  if in_dec string_dec s l then true else false.

Definition ascii_lower (a : ascii) : ascii :=
  let n := nat_of_ascii a in
  if (65 <=? n)%nat && (n <=? 90)%nat then ascii_of_nat (n + 32) else a.

(** [s.lower()] on ASCII text. *)
Fixpoint str_lower (s : string) : string :=
  match s with
  | EmptyString => EmptyString
  | String a s' => String (ascii_lower a) (str_lower s')
  end.

(** ** Dictionaries

    A [dict] keeps its items in insertion order; keys are unique. *)

Section Dict.
Variables K V : Type.
Variable K_eq_dec : forall a b : K, {a = b} + {a <> b}.

Definition dict := list (K * V).

Fixpoint dict_get (k : K) (d : dict) : option V :=
  match d with
  | [] => None
  | (k', v) :: d' => if K_eq_dec k k' then Some v else dict_get k d'
  end.

Fixpoint dict_remove (k : K) (d : dict) : dict :=
  match d with
  | [] => []
  | (k', v) :: d' => if K_eq_dec k k' then d' else (k', v) :: dict_remove k d'
  end.

(** [d.pop(k)]: the value and the dict without the key, [None] for
    [KeyError]. *)
Definition dict_pop (k : K) (d : dict) : option (V * dict) :=
  match dict_get k d with
  | Some v => Some (v, dict_remove k d)
  | None => None
  end.

(** [d[k] = v] *)
Fixpoint dict_set (k : K) (v : V) (d : dict) : dict :=
  match d with
  | [] => [(k, v)]
  | (k', v') :: d' =>
      if K_eq_dec k k' then (k, v) :: d' else (k', v') :: dict_set k v d'
  end.

Definition dict_keys (d : dict) : list K := map fst d.

(** Whether an item has the key [k]. *)
Definition key_is (k : K) (kv : K * V) : bool :=
  if K_eq_dec k (fst kv) then true else false.

(** [k in d] *)
Definition dict_mem (k : K) (d : dict) : bool :=
  match dict_get k d with Some _ => true | None => false end.
End Dict.

Definition Kwargs := dict string Value.

(** ** Exceptions *)

(** A raised exception: its class with all base classes (most derived
    first), its message and its traceback. *)
Record Exn : Type := mkExn {
  exc_mro : list string;
  exc_msg : string;
  exc_tb : list string
}.

(** Whether [except cls:] catches [e]. *)
Definition isinstance_exc (e : Exn) (cls : string) : bool :=
  existsb (String.eqb cls) (exc_mro e).

(** ** Handler classes and Keyword functions *)

(** [hcls.meta] of a session handler class. *)
Record SessionMeta : Type := mkSessionMeta {
  auto_explicit : bool;
  identifier_name : string;
  plural_identifier_name : string
}.

Record SessionHandler : Type := mkSessionHandler {
  meta : SessionMeta;
  SessionError : string
}.

(** A context handler class; [auto_explicit] is an optional class
    attribute. *)
Record ContextHandler : Type := mkContextHandler {
  ch_name : string;
  ch_auto_explicit : option bool;
  ContextError : string
}.

Definition ContextHandler_eq_dec (a b : ContextHandler) : {a = b} + {a <> b}.
Proof.
  decide equality; [apply string_dec | | apply string_dec].
  decide equality; apply bool_dec.
Defined.

(** [getattr(hcls, 'auto_explicit', False)] *)
Definition ctx_auto_explicit (h : ContextHandler) : bool :=
  match ch_auto_explicit h with Some b => b | None => false end.

Record Context : Type := mkContext {
  ctx_name : string;
  handler : ContextHandler
}.

Definition Context_eq_dec (a b : Context) : {a = b} + {a <> b}.
Proof. decide equality; [apply ContextHandler_eq_dec | apply string_dec]. Defined.

(** The reflected signature ([inspect.getargspec]) of a function. *)
Record ArgSpec : Type := mkArgSpec {
  as_args : list string;
  as_varargs : option string;
  as_keywords : option string;
  as_defaults : option (list Value)
}.

(** An entry of [func.argtypes]: the [isinstance] test and the constructor
    call, which may raise. *)
Record ArgType : Type := mkArgType {
  at_isinstance : Value -> bool;
  at_call : Value -> Exn + Value
}.

(** ** The Test Library instance

    The session and context handlers of the Test Library instance are
    defined outside this module; a Keyword reaches them only through
    attribute lookup on the instance.  [Lib] is the mutable state of the
    instance, and each attribute the Keyword reads or calls is a method of
    the class [LibraryInstance]: reading an attribute returns a value,
    calling [switch_<identifier>] returns or raises and may change the
    state. *)

(** Session instances are objects compared by identity ([is]). *)
Definition Ref := nat.

(** The places of [Keyword.__call__] that call a [switch_<identifier>]
    method of the instance. *)
Inductive Site : Type :=
| AtSessionSwitch
| AtContextSwitch
| AtContextRestore
| AtSessionRestore.

(** What a call does to its collaborators, in order: calls of
    [switch_<identifier>] and calls of a Keyword implementation. *)
Inductive Event : Type :=
| EvSwitch (site : Site) (identifier : string) (arg : Value)
| EvCall (impl : string) (args : list Value) (kwargs : Kwargs).

(** The attributes of the Test Library instance that a Keyword uses. *)
Class LibraryInstance (Lib : Type) : Type := {
  (** [type(libinstance).__name__] *)
  libname : string;
  (** [libinstance.session_handlers]: the session handler classes by name,
      in declared order. *)
  session_handlers : list (string * SessionHandler);
  (** [getattr(libinstance, identifier)] for a session handler's
      identifier: the current session. *)
  get_session : string -> Lib -> Ref;
  (** [dictitems(getattr(libinstance, plural_identifier))]: alias and
      instance of every stored session. *)
  get_sessions : string -> Lib -> list (Value * Ref);
  (** [getattr(libinstance, identifier)] for a context handler's
      identifier: the current context. *)
  get_context : string -> Lib -> Value;
  (** [getattr(libinstance, 'switch_' + identifier)(arg)]: the raised
      exception, if any, and the new state. *)
  switch : string -> Value -> Lib -> option Exn * Lib;
  (** [libinstance.contexts]: the active contexts. *)
  contexts : Lib -> list Context
}.

Section Library.
Context {Lib : Type} {libinstance : LibraryInstance Lib}.

(** A Keyword implementation: a function called with the instance, the
    positional and the named arguments; it returns or raises, and may change
    the instance. *)
Record Impl : Type := mkImpl {
  impl_name : string;
  impl_argspec : ArgSpec;
  impl_run : Lib -> list Value -> Kwargs -> (Exn + Value) * Lib
}.

(** The decorated Keyword function [func]: the base implementation with
    the attributes the [@keyword] decorator attached. *)
Record KeywordFunc : Type := mkKeywordFunc {
  f_doc : option string;
  f_args : option (list string);
  f_argtypes : option (list ArgType);
  f_base : Impl;
  f_contexts : dict Context Impl
}.

(** [func.argspec] *)
Definition argspec (f : KeywordFunc) : ArgSpec := impl_argspec (f_base f).

(** A [Keyword] object of the instance. *)
Record Keyword : Type := mkKeyword {
  name : string;
  func : KeywordFunc
}.

(** [self.context_handlers = set(ctx.handler for ctx in func.contexts)],
    iterated in one fixed order. *)
Definition context_handlers (self : Keyword) : list ContextHandler :=
  nodup ContextHandler_eq_dec (map (fun c => handler (fst c)) (f_contexts (func self))).

Definition longname (self : Keyword) : string := libname ++ "." ++ name self.

(** *** [Keyword.__doc__] *)

Section Doc.
(** [textwrap.dedent] *)
Variable dedent : string -> string.

Definition __doc__ (self : Keyword) : option string :=
  match f_doc (func self) with
  | None => None
  | Some doc =>
      if str_contains "010"%char doc
      then let '(first_line, rest) := str_split1 "010"%char doc in
           Some (first_line ++ newline ++ dedent rest)
      else None
  end.
End Doc.

(** *** [Keyword.args] *)

(** The loop over [zip(posargs, range(-len(posargs), 0))]. *)
Definition args_with_defaults (posargs : list string) (defaults : list Value)
  : list string :=
  map (fun '(arg, defaults_index) =>
         match py_getitem defaults defaults_index with
         | None => arg
         | Some default => fmt_eq arg default
         end)
      (combine posargs (py_range (- Z.of_nat (length posargs)) 0)).

Definition any_auto_explicit (self : Keyword) : bool :=
  existsb (fun h => auto_explicit (meta (snd h))) session_handlers
  || existsb ctx_auto_explicit (context_handlers self).

Definition args (self : Keyword) : list string :=
  match f_args (func self) with
  | Some (arg :: rest) => arg :: rest
  | _ =>
      let argspec := argspec (func self) in
      let posargs := tl (as_args argspec) in
      let defaults := as_defaults argspec in
      ((if truthy_seq defaults
        then args_with_defaults posargs (match defaults with Some d => d | None => [] end)
        else posargs)
       ++ (if truthy_str (as_varargs argspec)
           then [("*" ++ opt_str (as_varargs argspec))%string]
           else [])
       ++ (if truthy_str (as_keywords argspec)
           then [("**" ++ opt_str (as_keywords argspec))%string]
           else if any_auto_explicit self then ["**options"] else []))%list
  end.

(** The entries of [args] that the reflected signature declares: the
    positional names with their defaults, [*varargs] and [**keywords]. *)
Definition declared_entries (self : Keyword) : list string :=
  let argspec := argspec (func self) in
  let posargs := tl (as_args argspec) in
  let defaults := as_defaults argspec in
  ((if truthy_seq defaults
    then args_with_defaults posargs (match defaults with Some d => d | None => [] end)
    else posargs)
   ++ (if truthy_str (as_varargs argspec)
       then [("*" ++ opt_str (as_varargs argspec))%string]
       else [])
   ++ (if truthy_str (as_keywords argspec)
       then [("**" ++ opt_str (as_keywords argspec))%string]
       else []))%list.

(** [' | '.join(l)] *)
Definition join_bar (l : list string) : string := String.concat " | " l.

Definition __repr__ (self : Keyword) : string :=
  longname self ++ " [ " ++ join_bar (args self) ++ " ]".

(** *** The state of a call

    A call runs against the instance and leaves a log of the switches and
    implementation calls it made.  A computation returns a value or raises. *)

Record World : Type := mkWorld {
  lib : Lib;
  log : list Event
}.

Definition M (A : Type) : Type := World -> (Exn + A) * World.

Definition ret {A} (a : A) : M A := fun w => (inr a, w).

Definition raise {A} (e : Exn) : M A := fun w => (inl e, w).

Definition bind {A B} (m : M A) (k : A -> M B) : M B :=
  fun w =>
    match m w with
    | (inl e, w') => (inl e, w')
    | (inr a, w') => k a w'
    end.

(** [try: m / except: ...] with the handler left to the continuation. *)
Definition try_ {A} (m : M A) : M (Exn + A) :=
  fun w => let '(r, w') := m w in (inr r, w').

Definition read {A} (f : Lib -> A) : M A := fun w => (inr (f (lib w)), w).

Notation "x <- m ;; k" := (bind m (fun x => k))
  (at level 61, m at next level, right associativity).
Notation "' p <- m ;; k" := (bind m (fun x => let 'p := x in k))
  (at level 61, p pattern, m at next level, right associativity).
Notation "m ;;; k" := (bind m (fun _ => k))
  (at level 61, right associativity).

(** [switch = getattr(self.libinstance, 'switch_' + identifier); switch(arg)] *)
Definition do_switch (site : Site) (identifier : string) (arg : Value) : M unit :=
  fun w =>
    let '(r, l') := switch identifier arg (lib w) in
    let w' := mkWorld l' (log w ++ [EvSwitch site identifier arg])%list in
    match r with
    | Some e => (inl e, w')
    | None => (inr tt, w')
    end.

(** [impl(self.libinstance, *args, **kwargs)] *)
Definition invoke (impl : Impl) (args : list Value) (kwargs : Kwargs) : M Value :=
  fun w =>
    let '(r, l') := impl_run impl (lib w) args kwargs in
    (r, mkWorld l' (log w ++ [EvCall (impl_name impl) args kwargs])%list).

(** *** [Keyword.__call__] *)

Definition RestoreSessions := dict (string * string) Ref.
Definition RestoreContexts := dict string Value.

Definition key_eq_dec (a b : string * string) : {a = b} + {a <> b}.
Proof. decide equality; apply string_dec. Defined.

(** The loop over [self.libinstance.session_handlers]: the captured
    [error], the remaining [kwargs] and [current_sessions]. *)
Fixpoint switch_sessions (hs : list (string * SessionHandler)) (kwargs : Kwargs)
  (current_sessions : RestoreSessions)
  : M (option Exn * Kwargs * RestoreSessions) :=
  match hs with
  | [] => ret (None, kwargs, current_sessions)
  | (_, hcls) :: hs' =>
      if negb (auto_explicit (meta hcls))
      then switch_sessions hs' kwargs current_sessions
      else
        let identifier := identifier_name (meta hcls) in
        let plural_identifier := plural_identifier_name (meta hcls) in
        match dict_pop string_dec identifier kwargs with
        | None => switch_sessions hs' kwargs current_sessions
        | Some (sname, kwargs') =>
            previous <- read (get_session identifier) ;;
            r <- try_ (do_switch AtSessionSwitch identifier sname) ;;
            match r with
            | inl e =>
                if isinstance_exc e (SessionError hcls)
                then ret (Some e, kwargs', current_sessions)
                else raise e
            | inr _ =>
                switch_sessions hs' kwargs'
                  (dict_set key_eq_dec (identifier, plural_identifier) previous
                     current_sessions)
            end
        end
  end.

(** The loop over [self.context_handlers]. *)
Fixpoint switch_contexts (hs : list ContextHandler) (kwargs : Kwargs)
  (current_contexts : RestoreContexts)
  : M (option Exn * Kwargs * RestoreContexts) :=
  match hs with
  | [] => ret (None, kwargs, current_contexts)
  | hcls :: hs' =>
      if negb (ctx_auto_explicit hcls)
      then switch_contexts hs' kwargs current_contexts
      else
        let identifier := str_lower (ch_name hcls) in
        match dict_pop string_dec identifier kwargs with
        | None => switch_contexts hs' kwargs current_contexts
        | Some (ctxname, kwargs') =>
            previous <- read (get_context identifier) ;;
            r <- try_ (do_switch AtContextSwitch identifier ctxname) ;;
            match r with
            | inl e =>
                if isinstance_exc e (ContextError hcls)
                then ret (Some e, kwargs', current_contexts)
                else raise e
            | inr _ =>
                switch_contexts hs' kwargs'
                  (dict_set string_dec identifier previous current_contexts)
            end
        end
  end.

(** The loop over [zip(args, func.argtypes)]; a constructor that raises
    ends it. *)
Fixpoint cast_args (args : list Value) (argtypes : list ArgType)
  : Exn + list Value :=
  match args, argtypes with
  | arg :: args', argtype :: argtypes' =>
      match (if at_isinstance argtype arg then inr arg else at_call argtype arg) with
      | inl e => inl e
      | inr arg' =>
          match cast_args args' argtypes' with
          | inl e => inl e
          | inr casted => inr (arg' :: casted)
          end
      end
  | _, _ => inr []
  end.

(** [if func.argtypes: ...]: the positional arguments after the casts. *)
Definition cast (f : KeywordFunc) (args : list Value) : M (list Value) :=
  match f_argtypes f with
  | Some (t :: ts) =>
      match cast_args args (t :: ts) with
      | inl e => raise e
      | inr casted => ret (casted ++ skipn (length (t :: ts)) args)%list
      end
  | _ => ret args
  end.

(** The loop over [dictitems(func.contexts)]: every active context
    replaces the implementation found so far. *)
Definition resolve (f : KeywordFunc) (active : list Context) : Impl :=
  fold_left
    (fun func '(context, context_func) =>
       if in_dec Context_eq_dec context active then context_func else func)
    (f_contexts f) (f_base f).

(** The loop over [self.func.argspec.args[1 + len(args):]]: [posargs] and
    what is left of [kwargs]. *)
Fixpoint drain_posargs (names : list string) (kwargs : Kwargs)
  : list Value * Kwargs :=
  match names with
  | [] => ([], kwargs)
  | name :: names' =>
      match dict_pop string_dec name kwargs with
      | Some (v, kwargs') =>
          let '(posargs, rest) := drain_posargs names' kwargs' in
          (v :: posargs, rest)
      | None => drain_posargs names' kwargs
      end
  end.

(** The comprehension over [list(kwargs)]: [varargs] and what is left of
    [kwargs]. *)
Fixpoint key_value_varargs (keys : list string) (declared : list string)
  (kwargs : Kwargs) : list Value * Kwargs :=
  match keys with
  | [] => ([], kwargs)
  | key :: keys' =>
      if in_dec string_dec key declared
      then key_value_varargs keys' declared kwargs
      else
        match dict_pop string_dec key kwargs with
        | Some (v, kwargs') =>
            let '(varargs, rest) := key_value_varargs keys' declared kwargs' in
            (VStr (fmt_eq key v) :: varargs, rest)
        | None => key_value_varargs keys' declared kwargs
        end
  end.

(** Whether the call takes the branch [if self.func.argspec.keywords or not
    kwargs]. *)
Definition calls_directly (self : Keyword) (kwargs : Kwargs) : bool :=
  truthy_str (as_keywords (argspec (func self)))
  || match kwargs with [] => true | _ => false end.

(** The positional and named arguments the implementation is called with
    in the [else] branch. *)
Definition reshape (self : Keyword) (args : list Value) (kwargs : Kwargs)
  : list Value * Kwargs :=
  let declared := as_args (argspec (func self)) in
  let '(posargs, kwargs1) := drain_posargs (skipn (1 + length args) declared) kwargs in
  let '(varargs, kwargs2) := key_value_varargs (dict_keys kwargs1) declared kwargs1 in
  ((args ++ posargs ++ varargs)%list, kwargs2).

(** The block under [if error is None:] that calls the Keyword function:
    the captured error or the result. *)
Definition dispatch (self : Keyword) (args : list Value) (kwargs : Kwargs)
  : M (Exn + Value) :=
  args <- cast (func self) args ;;
  active <- read contexts ;;
  let func := resolve (func self) active in
  if calls_directly self kwargs
  then
    r <- try_ (invoke func args kwargs) ;;
    match r with
    | inl e => if isinstance_exc e "Exception" then ret (inl e) else raise e
    | inr result => ret (inr result)
    end
  else
    let '(args', kwargs') := reshape self args kwargs in
    try_ (invoke func args' kwargs').

(** The loop over [dictitems(current_contexts)]. *)
Fixpoint restore_contexts (current_contexts : RestoreContexts) : M unit :=
  match current_contexts with
  | [] => ret tt
  | (identifier, ctxname) :: rest =>
      do_switch AtContextRestore identifier ctxname ;;;
      restore_contexts rest
  end.

(** The inner loop over the stored sessions of one kind. *)
Fixpoint switch_to_instance (identifier : string) (session : Ref)
  (items : list (Value * Ref)) : M unit :=
  match items with
  | [] => ret tt
  | (sname, sinstance) :: items' =>
      (if Nat.eqb sinstance session
       then do_switch AtSessionRestore identifier sname
       else ret tt) ;;;
      switch_to_instance identifier session items'
  end.

(** The loop over [dictitems(current_sessions)]. *)
Fixpoint restore_sessions (current_sessions : RestoreSessions) : M unit :=
  match current_sessions with
  | [] => ret tt
  | ((identifier, plural_identifier), session) :: rest =>
      items <- read (get_sessions plural_identifier) ;;
      switch_to_instance identifier session items ;;;
      restore_sessions rest
  end.

(** The identifiers of a list of session handler classes. *)
Definition session_identifiers (hs : list (string * SessionHandler)) : list string :=
  map (fun h => identifier_name (meta (snd h))) hs.

(** [ev] is a call of [switch_<identifier>] made at [site], for one of the
    given identifiers. *)
Definition switch_event (site : Site) (identifiers : list string) (ev : Event) : Prop :=
  exists identifier arg, In identifier identifiers /\ ev = EvSwitch site identifier arg.

(** The first part of [__call__], up to the call of the Keyword function:
    the captured error or the result, and the two records of what to switch
    back. *)
Definition switch_and_dispatch (self : Keyword) (args : list Value) (kwargs : Kwargs)
  : M ((Exn + Value) * RestoreSessions * RestoreContexts) :=
  ' (error, kwargs, current_sessions) <-
      switch_sessions session_handlers kwargs [] ;;
  ' (error, kwargs, current_contexts) <-
      match error with
      | None => switch_contexts (context_handlers self) kwargs []
      | Some _ => ret (error, kwargs, [])
      end ;;
  outcome <-
      match error with
      | None => dispatch self args kwargs
      | Some e => ret (inl e)
      end ;;
  ret (outcome, current_sessions, current_contexts).

(** The second part: switching back contexts, then sessions. *)
Definition switch_back (current_sessions : RestoreSessions)
  (current_contexts : RestoreContexts) : M unit :=
  restore_contexts current_contexts ;;;
  restore_sessions current_sessions.

Definition __call__ (self : Keyword) (args : list Value) (kwargs : Kwargs)
  : M Value :=
  ' (outcome, current_sessions, current_contexts) <-
      switch_and_dispatch self args kwargs ;;
  switch_back current_sessions current_contexts ;;;
  match outcome with
  | inl error => raise error
  | inr result => ret result
  end.

(** The events a computation adds to the log all satisfy [P]. *)
Definition logged {A : Type} (m : M A) (w : World) (P : Event -> Prop) : Prop :=
  exists evs, log (snd (m w)) = (log w ++ evs)%list /\ Forall P evs.


End Library.

Arguments Impl Lib : clear implicits.
Arguments KeywordFunc Lib : clear implicits.
Arguments Keyword Lib : clear implicits.
Arguments World Lib : clear implicits.
Arguments M Lib A : clear implicits.

(** ** A Test Library instance with sessions and contexts *)

(** Modelled from the spec: the session handlers, the context handlers and
    the Test Library base ([robottools.library.session],
    [robottools.library.context], [robottools.library]) are not among the
    sources.  The spec gives each session handler kind an identifier, a
    plural identifier, one current session and a collection of stored
    sessions by alias, with [switch(name)] making a stored session current
    or raising the kind's session error; each context handler kind an
    identifier, one current context and a [switch(name)] raising the kind's
    context error.  [SpecLib] is the state of such an instance. *)
Record SpecLib : Type := mkSpecLib {
  (** plural identifier to the stored sessions, alias to instance *)
  sl_stored : dict string (dict Value Ref);
  (** session identifier to the current session *)
  sl_session : dict string Ref;
  (** context identifier to the handler class and the names of its contexts *)
  sl_handlers : dict string (ContextHandler * list string);
  (** context identifier to the name of the current context *)
  sl_context : dict string string
}.

(** The object [None]. *)
Definition none_ref : Ref := 0.

(** Modelled from the spec: the current-value accessor of a session
    handler kind; [None] when the kind has no current session. *)
Definition spec_get_session (identifier : string) (l : SpecLib) : Ref :=
  match dict_get string_dec identifier (sl_session l) with
  | Some r => r
  | None => none_ref
  end.

(** Modelled from the spec: the plural-collection accessor of a session
    handler kind. *)
Definition spec_get_sessions (plural_identifier : string) (l : SpecLib)
  : list (Value * Ref) :=
  match dict_get string_dec plural_identifier (sl_stored l) with
  | Some items => items
  | None => []
  end.

(** Modelled from the spec: the current-value accessor of a context
    handler kind; [None] when no context of the kind is active. *)
Definition spec_get_context (identifier : string) (l : SpecLib) : Value :=
  match dict_get string_dec identifier (sl_context l) with
  | Some n => VStr n
  | None => VNone
  end.

(** Modelled from the spec: the active contexts of the instance, the
    current context of every context handler kind. *)
Definition spec_contexts (l : SpecLib) : list Context :=
  flat_map
    (fun '(identifier, (hcls, _)) =>
       match dict_get string_dec identifier (sl_context l) with
       | Some n => [mkContext n hcls]
       | None => []
       end)
    (sl_handlers l).

Definition error_of (cls : string) (msg : string) : Exn :=
  mkExn [cls; "Exception"; "BaseException"] msg [].

(** Modelled from the spec: [switch_<identifier>] of an instance whose
    session handler classes are [handlers].  A session identifier makes the
    session stored under the alias current; a context identifier makes the
    named context current; an unknown alias or name raises the handler's
    error, an unknown identifier [AttributeError]. *)
Definition spec_switch (handlers : list (string * SessionHandler))
  (identifier : string) (arg : Value) (l : SpecLib) : option Exn * SpecLib :=
  match find (fun h => String.eqb (identifier_name (meta (snd h))) identifier) handlers with
  | Some (_, hcls) =>
      match dict_get Value_eq_dec arg
              (spec_get_sessions (plural_identifier_name (meta hcls)) l) with
      | Some r =>
          (None,
           mkSpecLib (sl_stored l) (dict_set string_dec identifier r (sl_session l))
             (sl_handlers l) (sl_context l))
      | None => (Some (error_of (SessionError hcls) "Session not found"), l)
      end
  | None =>
      match dict_get string_dec identifier (sl_handlers l) with
      | Some (hcls, names) =>
          match arg with
          | VStr n =>
              if in_dec string_dec n names
              then (None,
                    mkSpecLib (sl_stored l) (sl_session l) (sl_handlers l)
                      (dict_set string_dec identifier n (sl_context l)))
              else (Some (error_of (ContextError hcls) "Context not found"), l)
          | _ => (Some (error_of (ContextError hcls) "Context not found"), l)
          end
      | None => (Some (error_of "AttributeError" identifier), l)
      end
  end.

(** Modelled from the spec: the instance of a Test Library class named
    [cls] with the session handler classes [handlers]. *)
Definition spec_library (cls : string) (handlers : list (string * SessionHandler))
  : LibraryInstance SpecLib :=
  {| libname := cls;
     session_handlers := handlers;
     get_session := spec_get_session;
     get_sessions := spec_get_sessions;
     get_context := spec_get_context;
     switch := spec_switch handlers;
     contexts := spec_contexts |}.

(** Whether, for every session handler class that a call with the named
    arguments [kwargs] switches ([auto_explicit] set, identifier among the
    named arguments), the session current in [l] is stored under an alias. *)
Definition previous_sessions_stored (handlers : list (string * SessionHandler))
  (kwargs : Kwargs) (l : SpecLib) : bool :=
  forallb
    (fun h =>
       let m := meta (snd h) in
       negb (auto_explicit m && dict_mem string_dec (identifier_name m) kwargs)
       || existsb (fun item => Nat.eqb (snd item) (spec_get_session (identifier_name m) l))
                  (spec_get_sessions (plural_identifier_name m) l))
    handlers.

(** The session loop of a call that started in [l0]: the loop changed the
    current sessions only; each record of [current_sessions] holds the
    session that was current in [l0], for the identifiers of a handler
    class, and that session is stored under an alias; the kinds without a
    record have their current session of [l0]. *)
Definition sessions_recorded (handlers : list (string * SessionHandler))
  (l0 : SpecLib) (cs : dict (string * string) Ref) (l : SpecLib) : Prop :=
  sl_stored l = sl_stored l0
  /\ sl_handlers l = sl_handlers l0
  /\ sl_context l = sl_context l0
  /\ (forall identifier plural_identifier r,
        In ((identifier, plural_identifier), r) cs ->
        r = spec_get_session identifier l0
        /\ (exists n hcls,
              In (n, hcls) handlers
              /\ identifier_name (meta hcls) = identifier
              /\ plural_identifier_name (meta hcls) = plural_identifier)
        /\ (exists alias, In (alias, r) (spec_get_sessions plural_identifier l0)))
  /\ (forall identifier,
        ~ In identifier (map fst (dict_keys cs)) ->
        spec_get_session identifier l = spec_get_session identifier l0).

(** The context loop of a call that reached it in [l1]: the loop changed
    the current contexts only; each record of [current_contexts] holds the
    context that was current in [l1], for an identifier that is not a
    session identifier; the kinds without a record have their current
    context of [l1]. *)
Definition contexts_recorded (handlers : list (string * SessionHandler))
  (l1 : SpecLib) (cc : dict string Value) (l : SpecLib) : Prop :=
  sl_stored l = sl_stored l1
  /\ sl_handlers l = sl_handlers l1
  /\ sl_session l = sl_session l1
  /\ (forall identifier v,
        In (identifier, v) cc ->
        v = spec_get_context identifier l1
        /\ ~ In identifier (session_identifiers handlers))
  /\ (forall identifier,
        ~ In identifier (dict_keys cc) ->
        dict_get string_dec identifier (sl_context l)
        = dict_get string_dec identifier (sl_context l1)).

(** ** Example libraries and Keywords *)

(** A session handler class [Connection] with [auto_explicit] set. *)
Definition connection_handler : SessionHandler :=
  mkSessionHandler (mkSessionMeta true "connection" "connections") "ConnectionError".

(** A Test Library with that one session handler class. *)
Definition ConnLib : LibraryInstance SpecLib :=
  spec_library "ConnLib" [("Connection", connection_handler)].

(** A Test Library without session handlers. *)
Definition PlainLib : LibraryInstance SpecLib := spec_library "PlainLib" [].

(** A context handler class [Mode] with [auto_explicit] set, and its
    contexts [fast] and [safe]. *)
Definition mode_handler : ContextHandler :=
  mkContextHandler "Mode" (Some true) "ModeError".

Definition fast : Context := mkContext "fast" mode_handler.
Definition safe : Context := mkContext "safe" mode_handler.

(** Connections [A] and [B] are stored, [A] is current. *)
Definition conn_state : SpecLib :=
  mkSpecLib [("connections", [(VStr "A", 1); (VStr "B", 2)])]
            [("connection", 1)] [] [].

(** [A] and [B] are stored; the current connection was opened without an
    alias. *)
Definition unnamed_state : SpecLib :=
  mkSpecLib [("connections", [(VStr "A", 1); (VStr "B", 2)])]
            [("connection", 3)] [] [].

(** The context [fast] is active. *)
Definition fast_state : SpecLib :=
  mkSpecLib [] [] [("mode", (mode_handler, ["fast"; "safe"]))] [("mode", "fast")].

Definition returns_none : Impl SpecLib :=
  mkImpl "ping" (mkArgSpec ["self"] None None None)
         (fun l _ _ => (inr VNone, l)).

Definition value_error : Exn :=
  mkExn ["ValueError"; "Exception"; "BaseException"] "bad value" ["ping"].

Definition raises_value_error : Impl SpecLib :=
  mkImpl "ping" (mkArgSpec ["self"] None None None)
         (fun l _ _ => (inl value_error, l)).

Definition ping : Keyword SpecLib :=
  mkKeyword "Ping" (mkKeywordFunc None None None returns_none []).

Definition failing_ping : Keyword SpecLib :=
  mkKeyword "Ping" (mkKeywordFunc None None None raises_value_error []).

(** [def kw(self, x, y=1, z=2, **options)] *)
Definition xyz_options : Keyword SpecLib :=
  mkKeyword "Kw"
    (mkKeywordFunc None None None
       (mkImpl "kw"
          (mkArgSpec ["self"; "x"; "y"; "z"] None (Some "options")
             (Some [VInt 1; VInt 2]))
          (fun l _ _ => (inr VNone, l)))
       []).

(** [def kw(self, x, *rest)] *)
Definition x_rest : Keyword SpecLib :=
  mkKeyword "Kw"
    (mkKeywordFunc None None None
       (mkImpl "kw" (mkArgSpec ["self"; "x"] (Some "rest") None None)
          (fun l _ _ => (inr VNone, l)))
       []).

(** [def kw(self, x)] *)
Definition takes_x : Keyword SpecLib :=
  mkKeyword "Kw"
    (mkKeywordFunc None None None
       (mkImpl "kw" (mkArgSpec ["self"; "x"] None None None)
          (fun l _ _ => (inr VNone, l)))
       []).

(** [def kw(self)] with a variant [def kw(self, **options)] for the context
    [fast]. *)
Definition fast_variant : Impl SpecLib :=
  mkImpl "kw_fast" (mkArgSpec ["self"] None (Some "options") None)
         (fun l _ _ => (inr VNone, l)).

Definition with_variant : Keyword SpecLib :=
  mkKeyword "Kw"
    (mkKeywordFunc None None None
       (mkImpl "kw" (mkArgSpec ["self"] None None None)
          (fun l _ _ => (inr VNone, l)))
       [(fast, fast_variant)]).

(** A Keyword whose documentation is one line, and one with two lines. *)
Definition one_line_doc : Keyword SpecLib :=
  mkKeyword "Ping" (mkKeywordFunc (Some "Ping the peer.") None None returns_none []).

Definition two_line_doc : Keyword SpecLib :=
  mkKeyword "Ping"
    (mkKeywordFunc (Some ("Ping the peer." ++ newline ++ "  Twice."))
       None None returns_none []).

(** A second session handler class [Device], and a Test Library with both
    classes. *)
Definition device_handler : SessionHandler :=
  mkSessionHandler (mkSessionMeta true "device" "devices") "DeviceError".

Definition LabLib : LibraryInstance SpecLib :=
  spec_library "LabLib"
    [("Connection", connection_handler); ("Device", device_handler)].

(** Connections [A] and [B] and the device [X] are stored; [A] and [X] are
    current. *)
Definition lab_state : SpecLib :=
  mkSpecLib [("connections", [(VStr "A", 1); (VStr "B", 2)]);
             ("devices", [(VStr "X", 10)])]
            [("connection", 1); ("device", 10)] [] [].



(** ** Named arguments that are switching options *)

(** Whether [key] is the identifier of a session handler class of [hs]
    with [auto_explicit] set: the keys the session loop takes out of the
    named arguments. *)
Definition session_option (hs : list (string * SessionHandler)) (key : string) : bool :=
  existsb (fun h => auto_explicit (meta (snd h))
                    && String.eqb (identifier_name (meta (snd h))) key) hs.

(** Whether [key] is the identifier of a context handler class of [hs]
    with [auto_explicit] set. *)
Definition context_option (hs : list ContextHandler) (key : string) : bool :=
  existsb (fun h => ctx_auto_explicit h && String.eqb (str_lower (ch_name h)) key) hs.

(** The identifiers of a list of context handler classes. *)
Definition context_identifiers (hs : list ContextHandler) : list string :=
  map (fun h => str_lower (ch_name h)) hs.

(** The switch that a named argument asks for, as the call logs it. *)
Definition switch_of (site : Site) (kv : string * Value) : Event :=
  EvSwitch site (fst kv) (snd kv).

(** ** Further example libraries and Keywords *)

(** The type [int] as an entry of [func.argtypes]: [int(x)] for a number,
    a boolean, or a string of decimal digits; [ValueError] for another
    string, [TypeError] for [None]. *)
Definition int_type : ArgType :=
  mkArgType
    (fun v => match v with VInt _ => true | _ => false end)
    (fun v =>
       match v with
       | VInt z => inr (VInt z)
       | VBool b => inr (VInt (if b then 1 else 0))
       | VStr EmptyString => inl (error_of "ValueError" "invalid literal for int()")
       | VStr s =>
           match NilZero.int_of_string s with
           | Some i => inr (VInt (Z.of_int i))
           | None => inl (error_of "ValueError" "invalid literal for int()")
           end
       | VNone => inl (error_of "TypeError" "int() argument must be a string or a number")
       end).

(** [def kw(self, n, label)] registered with [argtypes=[int]]. *)
Definition takes_int : Keyword SpecLib :=
  mkKeyword "Kw"
    (mkKeywordFunc None None (Some [int_type])
       (mkImpl "kw" (mkArgSpec ["self"; "n"; "label"] None None None)
          (fun l _ _ => (inr VNone, l)))
       []).

(** A Keyword whose implementation raises [KeyboardInterrupt], which is
    not an [Exception]. *)
Definition keyboard_interrupt : Exn :=
  mkExn ["KeyboardInterrupt"; "BaseException"] "" ["ping"].

Definition interrupted_ping : Keyword SpecLib :=
  mkKeyword "Ping"
    (mkKeywordFunc None None None
       (mkImpl "ping" (mkArgSpec ["self"] None None None)
          (fun l _ _ => (inl keyboard_interrupt, l)))
       []).

(** A Keyword that returns [42] and closes the connection stored under
    [B] on its way. *)
Definition closes_b : Keyword SpecLib :=
  mkKeyword "Close B"
    (mkKeywordFunc None None None
       (mkImpl "close_b" (mkArgSpec ["self"] None None None)
          (fun l _ _ =>
             (inr (VInt 42),
              mkSpecLib [("connections", [(VStr "A", 1)])] (sl_session l)
                        (sl_handlers l) (sl_context l))))
       []).

(** A second context handler class [Level] with the context [high], and a
    state in which [fast] and [high] are both active. *)
Definition level_handler : ContextHandler :=
  mkContextHandler "Level" (Some true) "LevelError".

Definition high : Context := mkContext "high" level_handler.

Definition fast_high_state : SpecLib :=
  mkSpecLib [] []
            [("mode", (mode_handler, ["fast"; "safe"]));
             ("level", (level_handler, ["high"; "low"]))]
            [("mode", "fast"); ("level", "high")].

(** Connections [A] and [B] are stored and [A] is current, while [fast]
    and [high] are active. *)
Definition conn_fast_high_state : SpecLib :=
  mkSpecLib [("connections", [(VStr "A", 1); (VStr "B", 2)])]
            [("connection", 1)]
            [("mode", (mode_handler, ["fast"; "safe"]));
             ("level", (level_handler, ["high"; "low"]))]
            [("mode", "fast"); ("level", "high")].

Definition high_variant : Impl SpecLib :=
  mkImpl "kw_high" (mkArgSpec ["self"] None None None)
         (fun l _ _ => (inr VNone, l)).

(** A Keyword with variants for [fast] and, declared after it, for [high]. *)
Definition two_variants : Keyword SpecLib :=
  mkKeyword "Kw"
    (mkKeywordFunc None None None
       (mkImpl "kw" (mkArgSpec ["self"] None None None)
          (fun l _ _ => (inr VNone, l)))
       [(fast, fast_variant); (high, high_variant)]).

(** A Keyword with an explicit argument list. *)
Definition with_override : Keyword SpecLib :=
  mkKeyword "Kw"
    (mkKeywordFunc None (Some ["a"; "b"]) None
       (mkImpl "kw" (mkArgSpec ["self"; "x"; "y"] None (Some "options") None)
          (fun l _ _ => (inr VNone, l)))
       []).

Definition runtime_error : Exn :=
  mkExn ["RuntimeError"; "Exception"; "BaseException"] "link down" [].

(** A Test Library whose [switch_connection] raises [RuntimeError], which
    is not the [ConnectionError] of its session handler class. *)
Definition BrokenLib : LibraryInstance unit :=
  {| libname := "BrokenLib";
     session_handlers := [("Connection", connection_handler)];
     get_session := fun _ _ => none_ref;
     get_sessions := fun _ _ => [];
     get_context := fun _ _ => VNone;
     switch := fun _ _ l => (Some runtime_error, l);
     contexts := fun _ => [] |}.

Definition broken_ping : Keyword unit :=
  mkKeyword "Ping"
    (mkKeywordFunc None None None
       (mkImpl "ping" (mkArgSpec ["self"] None None None) (fun l _ _ => (inr VNone, l)))
       []).


(** * Properties *)

Unset Implicit Arguments.

(** Distinctness of the strings of a literal list. *)
Ltac distinct_strings := repeat constructor; cbn; intuition discriminate.

(** ** Strings and indices *)

Lemma str_split1_spec (c : ascii) (s : string) :
  str_contains c s = true ->
  s = fst (str_split1 c s) ++ String c (snd (str_split1 c s))
  /\ str_contains c (fst (str_split1 c s)) = false.
Proof.
  induction s as [|a s IH]; simpl; [discriminate|].
  destruct (Ascii.eqb a c) eqn:E.
  - intros _. apply Ascii.eqb_eq in E. subst a. simpl. auto.
  - intros H. destruct (IH H) as [Hs Hf].
    destruct (str_split1 c s) as [first rest]. simpl in *.
    rewrite E. split; [f_equal; exact Hs | exact Hf].
Qed.

Lemma py_range_nth (a b : Z) (j : nat) :
  (Z.of_nat j < b - a)%Z ->
  nth_error (py_range a b) j = Some (a + Z.of_nat j)%Z.
Proof.
  intros H. unfold py_range.
  rewrite nth_error_map, nth_error_seq.
  destruct (Nat.ltb_spec j (Z.to_nat (b - a))); [reflexivity | lia].
Qed.

Lemma py_range_length (a b : Z) : length (py_range a b) = Z.to_nat (b - a).
Proof. unfold py_range. now rewrite length_map, length_seq. Qed.

Lemma nth_error_combine {A B : Type} (l : list A) (l' : list B) (j : nat) (x : A) (y : B) :
  nth_error l j = Some x -> nth_error l' j = Some y ->
  nth_error (combine l l') j = Some (x, y).
Proof.
  revert l' j. induction l as [|a l IH]; intros [|b l'] [|j]; simpl; try discriminate.
  - intros [= ->] [= ->]. reflexivity.
  - apply IH.
Qed.

(** Entry [j] of the loop over [zip(posargs, range(-len(posargs), 0))]: the
    plain name before the trailing window of [len(defaults)] names, the name
    with its default inside it. *)
Lemma args_with_defaults_nth (posargs : list string) (defaults : list Value)
  (j : nat) (arg : string) :
  nth_error posargs j = Some arg ->
  (j + length defaults < length posargs ->
   nth_error (args_with_defaults posargs defaults) j = Some arg)
  /\ (length posargs <= j + length defaults ->
      exists default,
        nth_error defaults (j + length defaults - length posargs) = Some default
        /\ nth_error (args_with_defaults posargs defaults) j
           = Some (fmt_eq arg default)).
Proof.
  intros Hj.
  assert (Hlt : j < length posargs) by (apply nth_error_Some; congruence).
  assert (Hnth : nth_error (args_with_defaults posargs defaults) j
                 = Some match py_getitem defaults (- Z.of_nat (length posargs) + Z.of_nat j) with
                        | None => arg
                        | Some default => fmt_eq arg default
                        end).
  { unfold args_with_defaults. rewrite nth_error_map.
    rewrite (nth_error_combine _ _ _ _ _ Hj
               (py_range_nth (- Z.of_nat (length posargs)) 0 j ltac:(lia))).
    reflexivity. }
  rewrite Hnth. unfold py_getitem.
  destruct (Z.ltb_spec (- Z.of_nat (length posargs) + Z.of_nat j) 0); [|lia].
  split; intros Hw.
  - destruct (Z.ltb_spec (Z.of_nat (length defaults)
                          + (- Z.of_nat (length posargs) + Z.of_nat j)) 0); [reflexivity | lia].
  - destruct (Z.ltb_spec (Z.of_nat (length defaults)
                          + (- Z.of_nat (length posargs) + Z.of_nat j)) 0); [lia|].
    replace (Z.to_nat (Z.of_nat (length defaults)
                       + (- Z.of_nat (length posargs) + Z.of_nat j)))
      with (j + length defaults - length posargs) by lia.
    destruct (nth_error defaults (j + length defaults - length posargs)) as [d|] eqn:E.
    + exists d. auto.
    + apply nth_error_None in E. lia.
Qed.

Lemma args_with_defaults_length (posargs : list string) (defaults : list Value) :
  length (args_with_defaults posargs defaults) = length posargs.
Proof.
  unfold args_with_defaults.
  rewrite length_map, length_combine, py_range_length. lia.
Qed.

Section KeywordFacts.
Context {Lib : Type} {libinstance : LibraryInstance Lib}.

(** ** The documentation accessor *)

(** C10: a docstring without a newline is not returned: [__doc__] is
    [None] for it.  A docstring with a newline is returned as its first
    line, a newline, and the dedented remainder. *)
Theorem doc_needs_newline (dedent : string -> string) (self : Keyword Lib)
  (doc : string) :
  f_doc (func self) = Some doc ->
  (str_contains "010"%char doc = false -> __doc__ dedent self = None)
  /\ (str_contains "010"%char doc = true ->
      exists first_line rest,
        doc = first_line ++ newline ++ rest
        /\ str_contains "010"%char first_line = false
        /\ __doc__ dedent self = Some (first_line ++ newline ++ dedent rest)).
Proof.
  intros Hdoc. unfold __doc__. rewrite Hdoc. split; intros Hnl; rewrite Hnl.
  - reflexivity.
  - destruct (str_split1_spec _ _ Hnl) as [Hs Hf].
    destruct (str_split1 "010"%char doc) as [first rest]. simpl in *.
    exists first, rest. auto.
Qed.

(** ** The argument spec *)

Lemma args_no_override (self : Keyword Lib) :
  truthy_seq (f_args (func self)) = false ->
  args self
  = (declared_entries self
     ++ (if truthy_str (as_keywords (argspec (func self))) then []
         else if any_auto_explicit self then ["**options"] else []))%list.
Proof.
  unfold args, declared_entries. intros H.
  destruct (f_args (func self)) as [[|a l]|]; try discriminate;
    destruct (truthy_str (as_keywords (argspec (func self))));
    rewrite <- ?app_assoc, ?app_nil_r; reflexivity.
Qed.

Lemma any_auto_explicit_spec (self : Keyword Lib) :
  any_auto_explicit self = true <->
  (exists n hcls, In (n, hcls) session_handlers /\ auto_explicit (meta hcls) = true)
  \/ (exists context impl,
        In (context, impl) (f_contexts (func self))
        /\ ctx_auto_explicit (handler context) = true).
Proof.
  unfold any_auto_explicit, context_handlers.
  rewrite orb_true_iff, !existsb_exists. split.
  - intros [[[n h] [Hin Ha]] | [h [Hin Ha]]].
    + left. exists n, h. auto.
    + right. apply nodup_In, in_map_iff in Hin. destruct Hin as [[c i] [<- Hin]].
      exists c, i. auto.
  - intros [[n [h [Hin Ha]]] | [c [i [Hin Ha]]]].
    + left. exists (n, h). auto.
    + right. exists (handler c). split; [|exact Ha].
      apply nodup_In, in_map_iff. exists (c, i). auto.
Qed.

(** C8, as the code has it: without an override, [args] ends with the
    synthesized ["**options"] exactly when the signature declares no
    variadic-keyword parameter and a session handler class of the instance
    or a context handler class of the Keyword has [auto_explicit] set;
    a declared variadic-positional parameter does not prevent it. *)
Theorem args_options_iff (self : Keyword Lib) :
  truthy_seq (f_args (func self)) = false ->
  (args self = (declared_entries self ++ ["**options"])%list
   <-> truthy_str (as_keywords (argspec (func self))) = false
       /\ ((exists n hcls,
              In (n, hcls) session_handlers /\ auto_explicit (meta hcls) = true)
           \/ (exists context impl,
                 In (context, impl) (f_contexts (func self))
                 /\ ctx_auto_explicit (handler context) = true)))
  /\ (args self <> (declared_entries self ++ ["**options"])%list ->
      args self = declared_entries self).
Proof.
  intros H. rewrite <- any_auto_explicit_spec, (args_no_override _ H).
  assert (Hne : forall l : list string, l <> (l ++ ["**options"])%list).
  { intros l E. apply (f_equal (@length _)) in E. rewrite length_app in E. simpl in E. lia. }
  destruct (truthy_str (as_keywords (argspec (func self))));
    [|destruct (any_auto_explicit self)]; rewrite ?app_nil_r; split.
  - split; [intros E; now apply Hne in E | intros [? _]; discriminate].
  - reflexivity.
  - split; auto.
  - intros E. now contradiction E.
  - split; [intros E; now apply Hne in E | intros [_ ?]; discriminate].
  - reflexivity.
Qed.

(** Without an override, entry [j] of [args] is the [j]-th positional name
    after the first one, followed by its default exactly when it lies in
    the trailing window of [len(defaults)] names. *)
Lemma args_positional_nth (self : Keyword Lib) (j : nat) (arg : string) :
  truthy_seq (f_args (func self)) = false ->
  let posargs := tl (as_args (argspec (func self))) in
  let defaults := match as_defaults (argspec (func self)) with
                  | Some d => d
                  | None => []
                  end in
  nth_error posargs j = Some arg ->
  (j + length defaults < length posargs -> nth_error (args self) j = Some arg)
  /\ (length posargs <= j + length defaults ->
      exists default,
        nth_error defaults (j + length defaults - length posargs) = Some default
        /\ nth_error (args self) j = Some (fmt_eq arg default)).
Proof.
  intros H posargs defaults Hj.
  assert (Hlt : j < length posargs) by (apply nth_error_Some; congruence).
  rewrite (args_no_override _ H). unfold declared_entries.
  fold posargs. rewrite <- !app_assoc.
  destruct (truthy_seq (as_defaults (argspec (func self)))) eqn:Ht.
  - fold defaults.
    rewrite nth_error_app1 by (rewrite args_with_defaults_length; exact Hlt).
    apply args_with_defaults_nth; exact Hj.
  - assert (Hd : defaults = []).
    { unfold defaults. destruct (as_defaults (argspec (func self))) as [[|]|];
        [reflexivity | discriminate | reflexivity]. }
    rewrite Hd, nth_error_app1 by exact Hlt. simpl. split; [auto | lia].
Qed.

End KeywordFacts.

(** C9: without an override, [args] lists the positional names after the
    first one, with ["=<default>"] appended exactly for the names in the
    trailing window as long as the defaults; for [kw(self, x, y=1, z=2,
    **options)] it is [x], [y=1], [z=2], [**options]. *)
Theorem args_positional_defaults :
  (forall (Lib : Type) (libinstance : LibraryInstance Lib) (self : Keyword Lib)
          (j : nat) (arg : string),
      truthy_seq (f_args (func self)) = false ->
      let posargs := tl (as_args (argspec (func self))) in
      let defaults := match as_defaults (argspec (func self)) with
                      | Some d => d
                      | None => []
                      end in
      nth_error posargs j = Some arg ->
      (j + length defaults < length posargs -> nth_error (args self) j = Some arg)
      /\ (length posargs <= j + length defaults ->
          exists default,
            nth_error defaults (j + length defaults - length posargs) = Some default
            /\ nth_error (args self) j = Some (fmt_eq arg default)))
  /\ args (libinstance := PlainLib) xyz_options = ["x"; "y=1"; "z=2"; "**options"].
Proof.
  split; [|reflexivity].
  intros Lib libinstance self j arg. apply args_positional_nth.
Qed.

Lemma args_positional_defaults_witness :
  nth_error (args (libinstance := PlainLib) xyz_options) 0 = Some "x"
  /\ nth_error (args (libinstance := PlainLib) xyz_options) 2 = Some "z=2".
Proof.
  split.
  - exact (proj1 (proj1 args_positional_defaults SpecLib PlainLib xyz_options 0 "x"
                    eq_refl eq_refl) ltac:(simpl; lia)).
  - destruct (proj2 (proj1 args_positional_defaults SpecLib PlainLib xyz_options 2 "z"
                       eq_refl eq_refl) ltac:(simpl; lia)) as [d [Hd Hn]].
    simpl in Hd. injection Hd as <-. exact Hn.
Defined.

Lemma doc_needs_newline_witness :
  __doc__ (fun s => s) one_line_doc = None.
Proof.
  exact (proj1 (doc_needs_newline (fun s => s) one_line_doc _ eq_refl) eq_refl).
Defined.

Lemma args_options_iff_witness :
  args (libinstance := ConnLib) x_rest
  = (declared_entries x_rest ++ ["**options"])%list.
Proof.
  apply (proj1 (args_options_iff (libinstance := ConnLib) x_rest eq_refl)).
  split; [reflexivity|].
  left. exists "Connection", connection_handler. split; [left|]; reflexivity.
Defined.

(** C8 as stated fails: [kw(self, x, *rest)] declares a variadic-positional
    parameter, and with an [auto_explicit] session handler its [args] still
    end with the synthesized ["**options"]. *)
Lemma args_options_despite_varargs :
  truthy_str (as_varargs (argspec (func x_rest))) = true
  /\ args (libinstance := ConnLib) x_rest = ["x"; "*rest"; "**options"].
Proof. split; reflexivity. Qed.

Open Scope list_scope.

(** ** Dictionaries *)

Section DictFacts.
Context {K V : Type} (K_eq_dec : forall a b : K, {a = b} + {a <> b}).

Lemma dict_get_None (k : K) (d : dict K V) :
  dict_get K_eq_dec k d = None <-> ~ In k (dict_keys d).
Proof.
  induction d as [|[k' v] d IH]; simpl.
  - tauto.
  - destruct (K_eq_dec k k') as [->|Hne].
    + split; [discriminate | intros H; contradiction H; auto].
    + rewrite IH. split; [intros H [E|Hin]; [congruence | tauto] | tauto].
Qed.

Lemma dict_get_In (k : K) (v : V) (d : dict K V) :
  dict_get K_eq_dec k d = Some v -> In (k, v) d.
Proof.
  induction d as [|[k' v'] d IH]; simpl; [discriminate|].
  destruct (K_eq_dec k k') as [->|Hne]; [intros [= ->]; auto | auto].
Qed.

Lemma In_dict_get (k : K) (v : V) (d : dict K V) :
  NoDup (dict_keys d) -> In (k, v) d -> dict_get K_eq_dec k d = Some v.
Proof.
  induction d as [|[k' v'] d IH]; simpl; [tauto|].
  intros Hnd [E|Hin]; inversion Hnd as [|? ? Hnotin Hnd']; subst.
  - injection E as -> ->. destruct (K_eq_dec k k); [reflexivity | congruence].
  - destruct (K_eq_dec k k') as [->|Hne]; [|auto].
    contradiction Hnotin. apply (in_map fst) in Hin. exact Hin.
Qed.

Lemma dict_remove_filter (k : K) (d : dict K V) :
  NoDup (dict_keys d) ->
  dict_remove K_eq_dec k d = filter (fun kv => negb (key_is K_eq_dec k kv)) d.
Proof.
  unfold key_is. induction d as [|[k' v] d IH]; simpl; [reflexivity|].
  intros Hnd. inversion Hnd as [|? ? Hnotin Hnd']; subst.
  destruct (K_eq_dec k k') as [->|Hne]; simpl.
  - symmetry. apply forallb_filter_id, forallb_forall.
    intros [k'' v''] Hin. simpl.
    destruct (K_eq_dec k' k'') as [->|]; [|reflexivity].
    contradiction Hnotin. apply (in_map fst) in Hin. exact Hin.
  - f_equal. auto.
Qed.

Lemma dict_keys_filter_NoDup (p : K * V -> bool) (d : dict K V) :
  NoDup (dict_keys d) -> NoDup (dict_keys (filter p d)).
Proof.
  unfold dict_keys. induction d as [|kv d IH]; simpl; [auto|].
  intros Hnd. inversion Hnd as [|? ? Hnotin Hnd']; subst.
  destruct (p kv); simpl; [|auto]. constructor; [|auto].
  intros Hin. apply Hnotin. apply in_map_iff in Hin. destruct Hin as [x [E Hx]].
  apply filter_In in Hx. apply in_map_iff. exists x. tauto.
Qed.

Lemma dict_get_filter (p : K * V -> bool) (k : K) (d : dict K V) :
  (forall v, p (k, v) = true) ->
  dict_get K_eq_dec k (filter p d) = dict_get K_eq_dec k d.
Proof.
  intros Hp. induction d as [|[k' v] d IH]; simpl; [reflexivity|].
  destruct (p (k', v)) eqn:E; simpl; destruct (K_eq_dec k k') as [->|Hne]; auto.
  rewrite Hp in E. discriminate.
Qed.

Lemma dict_get_set_same (k : K) (v : V) (d : dict K V) :
  dict_get K_eq_dec k (dict_set K_eq_dec k v d) = Some v.
Proof.
  induction d as [|[k' v'] d IH]; simpl.
  - destruct (K_eq_dec k k); [reflexivity | congruence].
  - destruct (K_eq_dec k k') as [->|Hne]; simpl.
    + destruct (K_eq_dec k' k'); [reflexivity | congruence].
    + destruct (K_eq_dec k k'); [congruence | exact IH].
Qed.

Lemma dict_get_set_other (k k' : K) (v : V) (d : dict K V) :
  k' <> k ->
  dict_get K_eq_dec k' (dict_set K_eq_dec k v d) = dict_get K_eq_dec k' d.
Proof.
  intros Hne. induction d as [|[k'' v''] d IH]; simpl.
  - destruct (K_eq_dec k' k); [congruence | reflexivity].
  - destruct (K_eq_dec k k'') as [->|Hne']; simpl.
    + destruct (K_eq_dec k' k''); [congruence | reflexivity].
    + destruct (K_eq_dec k' k''); [reflexivity | exact IH].
Qed.

Lemma dict_set_In (k k' : K) (v v' : V) (d : dict K V) :
  In (k', v') (dict_set K_eq_dec k v d) -> (k', v') = (k, v) \/ In (k', v') d.
Proof.
  induction d as [|[k'' v''] d IH]; simpl.
  - intros [E|[]]; auto.
  - destruct (K_eq_dec k k'') as [->|Hne]; simpl.
    + intros [E|Hin]; auto.
    + intros [E|Hin]; [auto | destruct (IH Hin); auto].
Qed.

End DictFacts.

(** ** Reshaping of named arguments *)

Lemma str_in_iff (s : string) (l : list string) : str_in s l = true <-> In s l.
Proof. unfold str_in. destruct (in_dec string_dec s l); split; auto; discriminate. Qed.

Lemma str_in_false (s : string) (l : list string) : str_in s l = false <-> ~ In s l.
Proof. unfold str_in. destruct (in_dec string_dec s l); split; auto; try discriminate; tauto. Qed.

Lemma filter_filter {A : Type} (p q : A -> bool) (l : list A) :
  filter p (filter q l) = filter (fun x => q x && p x) l.
Proof.
  induction l as [|a l IH]; simpl; [reflexivity|].
  destruct (q a); simpl; [destruct (p a)|]; rewrite IH; reflexivity.
Qed.

Lemma NoDup_skipn {A : Type} (n : nat) (l : list A) : NoDup l -> NoDup (skipn n l).
Proof. intros H. rewrite <- (firstn_skipn n l) in H. exact (NoDup_app_remove_l _ _ H). Qed.

Lemma In_skipn {A : Type} (n : nat) (l : list A) (x : A) : In x (skipn n l) -> In x l.
Proof. intros H. rewrite <- (firstn_skipn n l). apply in_or_app. auto. Qed.

Lemma flat_map_ext_in {A B : Type} (f g : A -> list B) (l : list A) :
  (forall a, In a l -> f a = g a) -> flat_map f l = flat_map g l.
Proof.
  induction l as [|a l IH]; simpl; intros H; [reflexivity|].
  rewrite (H a) by auto. f_equal. auto.
Qed.

Lemma str_in_cons (k a : string) (l : list string) :
  str_in k (a :: l) = (String.eqb a k || str_in k l).
Proof.
  apply eq_true_iff_eq. rewrite orb_true_iff, !str_in_iff, String.eqb_eq.
  simpl. tauto.
Qed.

Lemma key_is_eqb (name k : string) (v : Value) :
  key_is string_dec name (k, v) = String.eqb name k.
Proof.
  unfold key_is. cbn [fst]. destruct (string_dec name k) as [->|Hne].
  - symmetry. apply String.eqb_refl.
  - symmetry. apply String.eqb_neq. exact Hne.
Qed.

(** The values of the named arguments that [names] select, in the order of
    [names]. *)
Lemma drain_posargs_spec (names : list string) (kwargs : Kwargs) :
  NoDup names -> NoDup (dict_keys kwargs) ->
  drain_posargs names kwargs
  = (flat_map (fun name => match dict_get string_dec name kwargs with
                           | Some v => [v]
                           | None => []
                           end) names,
     filter (fun kv => negb (str_in (fst kv) names)) kwargs).
Proof.
  revert kwargs. induction names as [|name names IH]; intros kwargs Hn Hk.
  - simpl. f_equal. symmetry. apply forallb_filter_id, forallb_forall. reflexivity.
  - inversion Hn as [|? ? Hnotin Hn']; subst. simpl. unfold dict_pop.
    destruct (dict_get string_dec name kwargs) as [v|] eqn:Hget.
    + rewrite (dict_remove_filter string_dec name kwargs Hk).
      rewrite IH by (auto using dict_keys_filter_NoDup).
      rewrite filter_filter. f_equal.
      * simpl. f_equal. apply flat_map_ext_in. intros n Hin.
        rewrite dict_get_filter; [reflexivity|].
        intros x. rewrite key_is_eqb.
        destruct (String.eqb_spec name n) as [->|]; [contradiction | reflexivity].
      * apply filter_ext. intros [k x]. rewrite key_is_eqb. cbn [fst].
        rewrite str_in_cons. now destruct (String.eqb name k), (str_in k names).
    + rewrite IH by auto. f_equal. apply filter_ext_in.
      intros [k x] Hin. cbn [fst]. rewrite str_in_cons.
      destruct (String.eqb_spec name k) as [->|Hne]; [|reflexivity].
      apply dict_get_None in Hget. contradiction Hget.
      apply (in_map fst) in Hin. exact Hin.
Qed.

Lemma dict_pop_middle (k : string) (v : Value) (kept rest : Kwargs) :
  (forall kv, In kv kept -> fst kv <> k) ->
  dict_pop string_dec k (kept ++ (k, v) :: rest) = Some (v, (kept ++ rest)%list).
Proof.
  intros H. unfold dict_pop.
  assert (Hg : dict_get string_dec k (kept ++ (k, v) :: rest) = Some v
               /\ dict_remove string_dec k (kept ++ (k, v) :: rest) = (kept ++ rest)%list).
  { induction kept as [|[k' v'] kept IH]; simpl.
    - destruct (string_dec k k); [auto | congruence].
    - destruct (string_dec k k') as [->|Hne].
      + contradiction (H (k', v')); simpl; auto.
      + destruct IH as [IH1 IH2]; [intros kv Hin; apply H; simpl; auto|].
        rewrite IH1, IH2. auto. }
  destruct Hg as [-> ->]. reflexivity.
Qed.

(** The ["key=value"] literals for the named arguments that are not
    declared parameters, and the named arguments that stay. *)
Lemma key_value_varargs_spec (declared : list string) (rest kept : Kwargs) :
  (forall kv, In kv kept -> In (fst kv) declared) ->
  key_value_varargs (dict_keys rest) declared (kept ++ rest)
  = (map (fun kv => VStr (fmt_eq (fst kv) (snd kv)))
         (filter (fun kv => negb (str_in (fst kv) declared)) rest),
     (kept ++ filter (fun kv => str_in (fst kv) declared) rest)%list).
Proof.
  revert kept. induction rest as [|[k v] rest IH]; intros kept Hkept.
  - simpl. reflexivity.
  - cbn [dict_keys map key_value_varargs filter fst snd].
    destruct (in_dec string_dec k declared) as [Hin|Hnotin].
    + rewrite (proj2 (str_in_iff k declared) Hin). cbn [negb].
      replace (kept ++ (k, v) :: rest) with ((kept ++ [(k, v)]) ++ rest)
        by (rewrite <- app_assoc; reflexivity).
      fold (dict_keys rest). rewrite IH.
      * rewrite <- app_assoc. reflexivity.
      * intros kv Hkv. apply in_app_or in Hkv.
        destruct Hkv as [Hkv|[<-|[]]]; [auto | exact Hin].
    + rewrite (proj2 (str_in_false k declared) Hnotin). cbn [negb map fst snd].
      rewrite dict_pop_middle.
      * fold (dict_keys rest). rewrite IH by exact Hkept. reflexivity.
      * intros kv Hkv E. apply Hnotin. rewrite <- E. auto.
Qed.

(** ** The call: dispatch *)

Lemma last_cons_default {A : Type} (a d : A) (l : list A) :
  last (a :: l) d = last l a.
Proof.
  revert a d. induction l as [|b l IH]; intros a d; [reflexivity|].
  change (last (a :: b :: l) d) with (last (b :: l) d).
  rewrite IH. symmetry. apply IH.
Qed.

Section CallFacts.
Context {Lib : Type} {libinstance : LibraryInstance Lib}.

Lemma bind_ok {A B : Type} (m : M Lib A) (k : A -> M Lib B) (w w' : World Lib) (a : A) :
  m w = (inr a, w') -> bind m k w = k a w'.
Proof. unfold bind. now intros ->. Qed.

Lemma do_switch_eq (site : Site) (identifier : string) (arg : Value) (w : World Lib) :
  do_switch site identifier arg w
  = (match fst (switch identifier arg (lib w)) with
     | Some e => inl e
     | None => inr tt
     end,
     mkWorld (snd (switch identifier arg (lib w)))
             (log w ++ [EvSwitch site identifier arg])).
Proof.
  unfold do_switch. destruct (switch identifier arg (lib w)) as [[e|] l']; reflexivity.
Qed.

Lemma invoke_eq (impl : Impl Lib) (args : list Value) (kwargs : Kwargs) (w : World Lib) :
  invoke impl args kwargs w
  = (fst (impl_run impl (lib w) args kwargs),
     mkWorld (snd (impl_run impl (lib w) args kwargs))
             (log w ++ [EvCall (impl_name impl) args kwargs])).
Proof.
  unfold invoke. destruct (impl_run impl (lib w) args kwargs); reflexivity.
Qed.

(** The casts read and change nothing of the instance. *)
Lemma cast_pure (f : KeywordFunc Lib) (args : list Value) (w : World Lib) :
  snd (cast f args w) = w.
Proof.
  unfold cast. destruct (f_argtypes f) as [[|t ts]|]; try reflexivity.
  destruct (cast_args args (t :: ts)); reflexivity.
Qed.

Lemma cast_returns (f : KeywordFunc Lib) (args args' : list Value) (w : World Lib) :
  fst (cast f args w) = inr args' -> cast f args w = (inr args', w).
Proof.
  intros H. rewrite <- (cast_pure f args w) at 2. rewrite <- H.
  apply surjective_pairing.
Qed.

(** The implementation called is the variant of the last active context
    in [func.contexts], and the base implementation when none is active. *)
Lemma resolve_last (f : KeywordFunc Lib) (active : list Context) :
  resolve f active
  = last (map snd
            (filter (fun c => if in_dec Context_eq_dec (fst c) active then true else false)
                    (f_contexts f)))
         (f_base f).
Proof.
  unfold resolve. generalize (f_base f) as acc.
  induction (f_contexts f) as [|[c i] l IH]; intros acc; [reflexivity|].
  cbn [fold_left filter fst]. rewrite IH.
  destruct (in_dec Context_eq_dec c active); [|reflexivity].
  cbn [map snd]. symmetry. apply last_cons_default.
Qed.

(** What [reshape] passes on: the named arguments that match a parameter
    not yet filled, in declared order; a ["key=value"] literal for every
    other named argument that is not a declared parameter; and, still
    named, the arguments whose key is a parameter already filled. *)
Lemma reshape_spec (self : Keyword Lib) (args : list Value) (kwargs : Kwargs) :
  NoDup (as_args (argspec (func self))) ->
  NoDup (dict_keys kwargs) ->
  let declared := as_args (argspec (func self)) in
  let unfilled := skipn (1 + length args) declared in
  reshape self args kwargs
  = (args
     ++ flat_map (fun name => match dict_get string_dec name kwargs with
                              | Some v => [v]
                              | None => []
                              end) unfilled
     ++ map (fun kv => VStr (fmt_eq (fst kv) (snd kv)))
            (filter (fun kv => negb (str_in (fst kv) declared)) kwargs),
     filter (fun kv => str_in (fst kv) declared && negb (str_in (fst kv) unfilled))
            kwargs).
Proof.
  intros Hd Hk declared unfilled. unfold reshape. fold declared. fold unfilled.
  rewrite drain_posargs_spec by (auto; apply NoDup_skipn; exact Hd).
  match goal with
  | |- context [key_value_varargs (dict_keys ?d) _ ?d] =>
      pose proof (key_value_varargs_spec declared d []
                    (fun kv (H : In kv []) => False_ind _ H)) as Hv
  end.
  cbn [app] in Hv. rewrite Hv.
  rewrite !filter_filter. f_equal; [f_equal; f_equal; f_equal|].
  - apply filter_ext. intros [k v]. cbn [fst].
    destruct (str_in k unfilled) eqn:Hu; [|reflexivity].
    apply str_in_iff, In_skipn in Hu. apply str_in_iff in Hu.
    rewrite Hu. reflexivity.
  - apply filter_ext. intros [k v]. cbn [fst]. apply andb_comm.
Qed.

(** C6, as the code has it: the branch is chosen by the signature of the
    Keyword's own function [self.func], not by that of the resolved
    implementation.  When [self.func] declares a variadic-keyword parameter,
    or no named argument is left, the resolved implementation (the variant
    of the last active context in [func.contexts], else the base one) is
    called once, with the instance, the cast positional arguments and the
    named arguments as they are. *)
Theorem direct_call_by_own_signature (self : Keyword Lib) (args args' : list Value)
  (kwargs : Kwargs) (w : World Lib) :
  fst (cast (func self) args w) = inr args' ->
  truthy_str (as_keywords (argspec (func self))) = true \/ kwargs = [] ->
  let impl := resolve (func self) (contexts (lib w)) in
  impl = last (map snd
                 (filter (fun c => if in_dec Context_eq_dec (fst c) (contexts (lib w))
                                   then true else false)
                         (f_contexts (func self))))
              (f_base (func self))
  /\ dispatch self args kwargs w
     = (match fst (impl_run impl (lib w) args' kwargs) with
        | inr result => inr (inr result)
        | inl e => if isinstance_exc e "Exception" then inr (inl e) else inl e
        end,
        mkWorld (snd (impl_run impl (lib w) args' kwargs))
                (log w ++ [EvCall (impl_name impl) args' kwargs])).
Proof.
  intros Hcast Hdirect impl. split; [apply resolve_last|].
  unfold dispatch.
  rewrite (bind_ok _ _ w w args' (cast_returns _ _ _ _ Hcast)).
  unfold read at 1. unfold bind at 1. fold impl.
  assert (Hc : calls_directly self kwargs = true).
  { unfold calls_directly. destruct Hdirect as [-> | ->]; [reflexivity | apply orb_true_r]. }
  rewrite Hc. unfold bind, try_. rewrite invoke_eq.
  destruct (fst (impl_run impl (lib w) args' kwargs)) as [e|v]; [|reflexivity].
  destruct (isinstance_exc e "Exception"); reflexivity.
Qed.

(** C7, as the code has it: when [self.func] declares no variadic-keyword
    parameter and named arguments are left, the implementation is called
    once with the cast positional arguments, then the values of the named
    arguments that match a parameter not yet filled (in declared order),
    then a ["key=value"] literal for every named argument that is not a
    declared parameter; a named argument whose key is a parameter already
    filled stays a named argument of the call. *)
Theorem reshaped_call (self : Keyword Lib) (args args' : list Value)
  (kwargs : Kwargs) (w : World Lib) :
  fst (cast (func self) args w) = inr args' ->
  truthy_str (as_keywords (argspec (func self))) = false ->
  kwargs <> [] ->
  NoDup (as_args (argspec (func self))) ->
  NoDup (dict_keys kwargs) ->
  let impl := resolve (func self) (contexts (lib w)) in
  let declared := as_args (argspec (func self)) in
  let unfilled := skipn (1 + length args') declared in
  let posargs := flat_map (fun name => match dict_get string_dec name kwargs with
                                       | Some v => [v]
                                       | None => []
                                       end) unfilled in
  let varargs := map (fun kv => VStr (fmt_eq (fst kv) (snd kv)))
                     (filter (fun kv => negb (str_in (fst kv) declared)) kwargs) in
  let named := filter (fun kv => str_in (fst kv) declared
                                 && negb (str_in (fst kv) unfilled)) kwargs in
  dispatch self args kwargs w
  = (inr (fst (impl_run impl (lib w) (args' ++ posargs ++ varargs) named)),
     mkWorld (snd (impl_run impl (lib w) (args' ++ posargs ++ varargs) named))
             (log w ++ [EvCall (impl_name impl) (args' ++ posargs ++ varargs) named])).
Proof.
  intros Hcast Hkw Hne Hd Hk impl declared unfilled posargs varargs named.
  unfold dispatch.
  rewrite (bind_ok _ _ w w args' (cast_returns _ _ _ _ Hcast)).
  unfold read at 1. unfold bind at 1. fold impl.
  assert (Hc : calls_directly self kwargs = false).
  { unfold calls_directly. rewrite Hkw. destruct kwargs; [congruence | reflexivity]. }
  rewrite Hc, (reshape_spec self args' kwargs Hd Hk).
  fold declared. fold unfilled. fold posargs. fold varargs. fold named.
  unfold try_. rewrite invoke_eq. reflexivity.
Qed.

End CallFacts.

(** ** The call: switching and switching back *)

Section SwitchFacts.
Context {Lib : Type} {libinstance : LibraryInstance Lib}.

Lemma switch_event_incl (site : Site) (ids ids' : list string) (ev : Event) :
  incl ids ids' -> switch_event site ids ev -> switch_event site ids' ev.
Proof. intros Hi [id [v [Hin ->]]]. exists id, v. auto. Qed.

(** One turn of the session loop for a handler class that is skipped. *)
Lemma switch_sessions_skip (n : string) (hcls : SessionHandler)
  (hs : list (string * SessionHandler)) (kwargs : Kwargs) (cs : RestoreSessions)
  (w : World Lib) :
  auto_explicit (meta hcls) = false
  \/ dict_pop string_dec (identifier_name (meta hcls)) kwargs = None ->
  switch_sessions ((n, hcls) :: hs) kwargs cs w = switch_sessions hs kwargs cs w.
Proof.
  intros [H|H]; cbn [switch_sessions]; [rewrite H; reflexivity|].
  destruct (negb (auto_explicit (meta hcls))); [reflexivity|].
  cbv zeta. rewrite H. reflexivity.
Qed.

(** One turn of the session loop for a handler class whose identifier is a
    named argument: the current session is read, the switch is called, and
    only when it returns is the session read before stored in
    [current_sessions]. *)
Lemma switch_sessions_step (n : string) (hcls : SessionHandler)
  (hs : list (string * SessionHandler)) (kwargs kwargs' : Kwargs)
  (cs : RestoreSessions) (w : World Lib) (sname : Value) :
  auto_explicit (meta hcls) = true ->
  dict_pop string_dec (identifier_name (meta hcls)) kwargs = Some (sname, kwargs') ->
  let identifier := identifier_name (meta hcls) in
  let w' := mkWorld (snd (switch identifier sname (lib w)))
                    (log w ++ [EvSwitch AtSessionSwitch identifier sname]) in
  switch_sessions ((n, hcls) :: hs) kwargs cs w
  = match fst (switch identifier sname (lib w)) with
    | None =>
        switch_sessions hs kwargs'
          (dict_set key_eq_dec (identifier, plural_identifier_name (meta hcls))
                    (get_session identifier (lib w)) cs) w'
    | Some e =>
        if isinstance_exc e (SessionError hcls)
        then (inr (Some e, kwargs', cs), w')
        else (inl e, w')
    end.
Proof.
  intros Ha Hp identifier w'. subst identifier w'.
  cbn [switch_sessions]. rewrite Ha. cbn [negb]. cbv zeta.
  rewrite Hp. unfold bind, read, try_. rewrite do_switch_eq.
  destruct (fst (switch (identifier_name (meta hcls)) sname (lib w))) as [e|];
    [|reflexivity].
  destruct (isinstance_exc e (SessionError hcls)); reflexivity.
Qed.

(** A case analysis for one turn of the session loop. *)
Lemma switch_sessions_cases (n : string) (hcls : SessionHandler)
  (hs : list (string * SessionHandler)) (kwargs : Kwargs) (cs : RestoreSessions)
  (w : World Lib) :
  switch_sessions ((n, hcls) :: hs) kwargs cs w = switch_sessions hs kwargs cs w
  \/ exists sname kwargs',
       auto_explicit (meta hcls) = true
       /\ dict_pop string_dec (identifier_name (meta hcls)) kwargs = Some (sname, kwargs').
Proof.
  destruct (auto_explicit (meta hcls)) eqn:Ha.
  - destruct (dict_pop string_dec (identifier_name (meta hcls)) kwargs) as [[sname kwargs']|] eqn:Hp.
    + right. exists sname, kwargs'. auto.
    + left. apply switch_sessions_skip. auto.
  - left. apply switch_sessions_skip. auto.
Qed.

(** The handler classes after a prefix that was switched without error
    are processed from the state the prefix left. *)
Lemma switch_sessions_app (pre post : list (string * SessionHandler))
  (kwargs kwargs1 : Kwargs) (cs cs1 : RestoreSessions) (w w1 : World Lib) :
  switch_sessions pre kwargs cs w = (inr (None, kwargs1, cs1), w1) ->
  switch_sessions (pre ++ post) kwargs cs w = switch_sessions post kwargs1 cs1 w1.
Proof.
  revert kwargs cs w. induction pre as [|[n hcls] pre IH]; intros kwargs cs w H.
  - cbn in H. injection H as <- <- <-. reflexivity.
  - rewrite <- app_comm_cons.
    destruct (auto_explicit (meta hcls)) eqn:Ha;
      [destruct (dict_pop string_dec (identifier_name (meta hcls)) kwargs)
         as [[sname kwargs']|] eqn:Hp|].
    + rewrite (switch_sessions_step n hcls _ kwargs kwargs' cs w sname Ha Hp) in H.
      rewrite (switch_sessions_step n hcls _ kwargs kwargs' cs w sname Ha Hp).
      cbv zeta in H |- *.
      destruct (fst (switch (identifier_name (meta hcls)) sname (lib w))) as [e|].
      * destruct (isinstance_exc e (SessionError hcls)); discriminate.
      * apply IH. exact H.
    + rewrite switch_sessions_skip in H by auto.
      rewrite switch_sessions_skip by auto. apply IH. exact H.
    + rewrite switch_sessions_skip in H by auto.
      rewrite switch_sessions_skip by auto. apply IH. exact H.
Qed.

(** The session loop logs only session switches of its handler classes. *)
Lemma switch_sessions_log (hs : list (string * SessionHandler)) (kwargs : Kwargs)
  (cs : RestoreSessions) (w : World Lib) :
  exists evs,
    log (snd (switch_sessions hs kwargs cs w)) = log w ++ evs
    /\ Forall (switch_event AtSessionSwitch (session_identifiers hs)) evs.
Proof.
  revert kwargs cs w. induction hs as [|[n hcls] hs IH]; intros kwargs cs w.
  - exists []. cbn. rewrite app_nil_r. auto.
  - assert (Hincl : incl (session_identifiers hs) (session_identifiers ((n, hcls) :: hs)))
      by (apply incl_tl, incl_refl).
    destruct (switch_sessions_cases n hcls hs kwargs cs w) as [-> | [sname [kwargs' [Ha Hp]]]].
    + destruct (IH kwargs cs w) as [evs [Hl Hf]]. exists evs. split; [exact Hl|].
      eapply Forall_impl; [|exact Hf]. intros ev. apply switch_event_incl, Hincl.
    + rewrite (switch_sessions_step n hcls hs kwargs kwargs' cs w sname Ha Hp).
      cbv zeta.
      assert (Hev : switch_event AtSessionSwitch (session_identifiers ((n, hcls) :: hs))
                      (EvSwitch AtSessionSwitch (identifier_name (meta hcls)) sname)).
      { exists (identifier_name (meta hcls)), sname. split; [left|]; reflexivity. }
      destruct (fst (switch (identifier_name (meta hcls)) sname (lib w))) as [e|].
      * exists [EvSwitch AtSessionSwitch (identifier_name (meta hcls)) sname].
        destruct (isinstance_exc e (SessionError hcls)); cbn; auto.
      * match goal with
        | |- context [switch_sessions hs ?k ?c ?w'] =>
            destruct (IH k c w') as [evs [Hl Hf]]
        end.
        exists (EvSwitch AtSessionSwitch (identifier_name (meta hcls)) sname :: evs).
        split.
        -- rewrite Hl. cbn [log]. rewrite <- app_assoc. reflexivity.
        -- constructor; [exact Hev|].
           eapply Forall_impl; [|exact Hf]. intros ev. apply switch_event_incl, Hincl.
Qed.

(** The keys of [current_sessions] are those it had and the identifiers of
    handler classes of the loop. *)
Lemma switch_sessions_keys (hs : list (string * SessionHandler)) (kwargs kwargs1 : Kwargs)
  (cs cs1 : RestoreSessions) (w w1 : World Lib) (error : option Exn) :
  switch_sessions hs kwargs cs w = (inr (error, kwargs1, cs1), w1) ->
  forall key, In key (dict_keys cs1) ->
    In key (dict_keys cs) \/ In (fst key) (session_identifiers hs).
Proof.
  revert kwargs cs w. induction hs as [|[n hcls] hs IH]; intros kwargs cs w H key Hkey.
  - cbn in H. injection H as <- <- <- <-. auto.
  - destruct (switch_sessions_cases n hcls hs kwargs cs w) as [E | [sname [kwargs' [Ha Hp]]]].
    + rewrite E in H. destruct (IH _ _ _ H key Hkey); [auto | right; right; auto].
    + rewrite (switch_sessions_step n hcls hs kwargs kwargs' cs w sname Ha Hp) in H.
      cbv zeta in H.
      destruct (fst (switch (identifier_name (meta hcls)) sname (lib w))) as [e|].
      * destruct (isinstance_exc e (SessionError hcls)); [|discriminate].
        injection H as <- <- <- <-. auto.
      * destruct (IH _ _ _ H key Hkey) as [Hin | Hin]; [|right; right; auto].
        unfold dict_keys in Hin. apply in_map_iff in Hin.
        destruct Hin as [[k v] [<- Hin]]. apply dict_set_In in Hin.
        destruct Hin as [E | Hin].
        -- injection E as -> ->. right. left. reflexivity.
        -- left. apply (in_map fst) in Hin. exact Hin.
Qed.

End SwitchFacts.

Section RestoreFacts.
Context {Lib : Type} {libinstance : LibraryInstance Lib}.

Lemma logged_ret {A : Type} (a : A) (w : World Lib) (P : Event -> Prop) :
  logged (ret a) w P.
Proof. exists []. cbn. rewrite app_nil_r. auto. Qed.

Lemma logged_bind {A B : Type} (m : M Lib A) (k : A -> M Lib B) (w : World Lib)
  (P : Event -> Prop) :
  logged m w P -> (forall a w', logged (k a) w' P) -> logged (bind m k) w P.
Proof.
  intros [evs [Hl Hf]] Hk. unfold logged, bind.
  destruct (m w) as [[e|a] w'] eqn:E; cbn [snd] in *.
  - exists evs. auto.
  - destruct (Hk a w') as [evs' [Hl' Hf']]. exists (evs ++ evs'). split.
    + rewrite Hl', Hl, app_assoc. reflexivity.
    + apply Forall_app. auto.
Qed.

Lemma logged_impl {A : Type} (m : M Lib A) (w : World Lib) (P Q : Event -> Prop) :
  (forall ev, P ev -> Q ev) -> logged m w P -> logged m w Q.
Proof. intros H [evs [Hl Hf]]. exists evs. split; [exact Hl | eapply Forall_impl; eauto]. Qed.

Lemma logged_do_switch (site : Site) (identifier : string) (arg : Value) (w : World Lib) :
  logged (do_switch site identifier arg) w (switch_event site [identifier]).
Proof.
  exists [EvSwitch site identifier arg]. rewrite do_switch_eq. split; [reflexivity|].
  constructor; [|constructor]. exists identifier, arg. split; [left|]; reflexivity.
Qed.

Lemma restore_contexts_log (cc : RestoreContexts) (w : World Lib) :
  logged (restore_contexts cc) w (switch_event AtContextRestore (dict_keys cc)).
Proof.
  revert w. induction cc as [|[identifier ctxname] cc IH]; intros w.
  - apply logged_ret.
  - cbn [restore_contexts]. apply logged_bind.
    + eapply logged_impl; [|apply logged_do_switch].
      intros ev. apply switch_event_incl. intros x [<-|[]]. left. reflexivity.
    + intros _ w'. eapply logged_impl; [|apply IH].
      intros ev. apply switch_event_incl, incl_tl, incl_refl.
Qed.

Lemma switch_to_instance_log (identifier : string) (session : Ref)
  (items : list (Value * Ref)) (w : World Lib) :
  logged (switch_to_instance identifier session items) w
         (switch_event AtSessionRestore [identifier]).
Proof.
  revert w. induction items as [|[sname sinstance] items IH]; intros w.
  - apply logged_ret.
  - cbn [switch_to_instance]. apply logged_bind; [|intros _ w'; apply IH].
    destruct (Nat.eqb sinstance session); [apply logged_do_switch | apply logged_ret].
Qed.

Lemma restore_sessions_log (cs : RestoreSessions) (w : World Lib) :
  logged (restore_sessions cs) w
         (switch_event AtSessionRestore (map fst (dict_keys cs))).
Proof.
  revert w. induction cs as [|[[identifier plural_identifier] session] cs IH]; intros w.
  - apply logged_ret.
  - cbn [restore_sessions]. apply logged_bind.
    + exists []. cbn. rewrite app_nil_r. auto.
    + intros items w'. apply logged_bind.
      * eapply logged_impl; [|apply switch_to_instance_log].
        intros ev. apply switch_event_incl. intros x [<-|[]]. left. reflexivity.
      * intros _ w''. eapply logged_impl; [|apply IH].
        intros ev. apply switch_event_incl, incl_tl, incl_refl.
Qed.

(** Switching back logs only the switches back to what was recorded. *)
Lemma switch_back_log (cs : RestoreSessions) (cc : RestoreContexts) (w : World Lib) :
  logged (switch_back cs cc) w
         (fun ev => switch_event AtContextRestore (dict_keys cc) ev
                    \/ switch_event AtSessionRestore (map fst (dict_keys cs)) ev).
Proof.
  unfold switch_back. apply logged_bind.
  - eapply logged_impl; [|apply restore_contexts_log]. auto.
  - intros _ w'. eapply logged_impl; [|apply restore_sessions_log]. auto.
Qed.





(** The call after the first part returned: it ends with the result of
    switching back, and the captured outcome only when that returned. *)
Lemma call_after_dispatch (self : Keyword Lib) (args : list Value) (kwargs : Kwargs)
  (w0 w3 : World Lib) (outcome : Exn + Value) (cs : RestoreSessions)
  (cc : RestoreContexts) :
  switch_and_dispatch self args kwargs w0 = (inr (outcome, cs, cc), w3) ->
  __call__ self args kwargs w0
  = (match fst (switch_back cs cc w3) with
     | inl e' => inl e'
     | inr _ => outcome
     end,
     snd (switch_back cs cc w3)).
Proof.
  intros H. unfold __call__. rewrite (bind_ok _ _ _ _ _ H). unfold bind.
  destruct (switch_back cs cc w3) as [[e'|[]] w4]; [reflexivity|].
  destruct outcome; reflexivity.
Qed.

(** The same, with the two loops of switching back written out: the loop
    over [current_contexts] runs first; the loop over [current_sessions]
    runs when it returned; the captured outcome is the call's when both
    returned. *)
Lemma call_switches_back (self : Keyword Lib) (args : list Value) (kwargs : Kwargs)
  (w0 w3 : World Lib) (outcome : Exn + Value) (cs : RestoreSessions)
  (cc : RestoreContexts) :
  switch_and_dispatch self args kwargs w0 = (inr (outcome, cs, cc), w3) ->
  __call__ self args kwargs w0
  = match fst (restore_contexts cc w3) with
    | inl e' => (inl e', snd (restore_contexts cc w3))
    | inr _ =>
        (match fst (restore_sessions cs (snd (restore_contexts cc w3))) with
         | inl e' => inl e'
         | inr _ => outcome
         end,
         snd (restore_sessions cs (snd (restore_contexts cc w3))))
    end.
Proof.
  intros H. rewrite (call_after_dispatch _ _ _ _ _ _ _ _ H).
  unfold switch_back, bind.
  destruct (restore_contexts cc w3) as [[e'|[]] w4]; cbn [fst snd]; [reflexivity|].
  destruct (restore_sessions cs w4) as [[e'|[]] w5]; reflexivity.
Qed.

(** The loop over [current_contexts] calls [switch_<identifier>] for the
    records in their order, each with the recorded context, up to the first
    call that raises; when the loop returns, every record was switched
    to. *)
Lemma restore_contexts_trace (cc : RestoreContexts) (w : World Lib) :
  exists switched rest,
    cc = switched ++ rest
    /\ log (snd (restore_contexts cc w))
       = log w ++ map (switch_of AtContextRestore) switched
    /\ (fst (restore_contexts cc w) = inr tt -> rest = []).
Proof.
  revert w. induction cc as [|[identifier ctxname] cc IH]; intros w.
  - exists [], []. cbn. rewrite app_nil_r. auto.
  - cbn [restore_contexts]. unfold bind. rewrite do_switch_eq.
    destruct (fst (switch identifier ctxname (lib w))) as [e|].
    + exists [(identifier, ctxname)], cc. cbn. split; [reflexivity|].
      split; [reflexivity | discriminate].
    + match goal with
      | |- context [restore_contexts cc ?w'] =>
          destruct (IH w') as [switched [rest [Hcc [Hl Hr]]]]
      end.
      exists ((identifier, ctxname) :: switched), rest.
      split; [cbn; f_equal; exact Hcc|].
      split; [|exact Hr].
      rewrite Hl. cbn [log map]. rewrite <- app_assoc. reflexivity.
Qed.

(** The first part of the call when the session loop captured an error:
    no context is switched and the Keyword function is not called. *)
Lemma switch_and_dispatch_session_error (self : Keyword Lib) (args : list Value)
  (kwargs kwargs1 : Kwargs) (w0 w1 : World Lib) (e : Exn) (cs : RestoreSessions) :
  switch_sessions session_handlers kwargs [] w0 = (inr (Some e, kwargs1, cs), w1) ->
  switch_and_dispatch self args kwargs w0 = (inr (inl e, cs, []), w1).
Proof.
  intros H. unfold switch_and_dispatch. rewrite (bind_ok _ _ _ _ _ H). reflexivity.
Qed.

End RestoreFacts.

Lemma dict_pop_spec {V : Type} (k : string) (v : V) (d d' : dict string V) :
  NoDup (dict_keys d) ->
  dict_pop string_dec k d = Some (v, d') ->
  dict_get string_dec k d = Some v
  /\ NoDup (dict_keys d')
  /\ ~ In k (dict_keys d')
  /\ incl (dict_keys d') (dict_keys d).
Proof.
  intros Hnd. unfold dict_pop.
  destruct (dict_get string_dec k d) as [v'|] eqn:Hget; [|discriminate].
  intros [= -> <-]. rewrite (dict_remove_filter string_dec k d Hnd).
  split; [reflexivity|]. split; [apply dict_keys_filter_NoDup; exact Hnd|]. split.
  - intros Hin. unfold dict_keys in Hin. apply in_map_iff in Hin.
    destruct Hin as [[k' x] [E Hin]]. cbn in E. subst k'.
    apply filter_In in Hin. destruct Hin as [_ Hin]. unfold key_is in Hin. cbn in Hin.
    destruct (string_dec k k); [discriminate | congruence].
  - intros x Hin. unfold dict_keys in *. apply in_map_iff in Hin.
    destruct Hin as [kv [E Hin]]. apply filter_In in Hin.
    apply in_map_iff. exists kv. tauto.
Qed.

Section Protocol.
Context {Lib : Type} {libinstance : LibraryInstance Lib}.

(** The identifiers recorded in [current_sessions] were taken out of the
    named arguments. *)
Lemma switch_sessions_popped (hs : list (string * SessionHandler))
  (kwargs kwargs1 : Kwargs) (cs cs1 : RestoreSessions) (w w1 : World Lib)
  (error : option Exn) :
  NoDup (dict_keys kwargs) ->
  (forall key, In key (dict_keys cs) -> ~ In (fst key) (dict_keys kwargs)) ->
  switch_sessions hs kwargs cs w = (inr (error, kwargs1, cs1), w1) ->
  NoDup (dict_keys kwargs1)
  /\ (forall key, In key (dict_keys cs1) -> ~ In (fst key) (dict_keys kwargs1))
  /\ incl (dict_keys kwargs1) (dict_keys kwargs).
Proof.
  revert kwargs cs w. induction hs as [|[n hcls] hs IH]; intros kwargs cs w Hnd Hcs H.
  - cbn in H. injection H as <- <- <- <-. auto using incl_refl.
  - destruct (switch_sessions_cases n hcls hs kwargs cs w) as [E | [sname [kwargs' [Ha Hp]]]].
    + rewrite E in H. eapply IH; eauto.
    + rewrite (switch_sessions_step n hcls hs kwargs kwargs' cs w sname Ha Hp) in H.
      cbv zeta in H.
      destruct (dict_pop_spec _ _ _ _ Hnd Hp) as [Hget [Hnd' [Hnotin Hincl]]].
      destruct (fst (switch (identifier_name (meta hcls)) sname (lib w))) as [e|].
      * destruct (isinstance_exc e (SessionError hcls)); [|discriminate].
        injection H as <- <- <- <-. split; [exact Hnd'|]. split; [|exact Hincl].
        intros key Hkey Hin. apply (Hcs key Hkey). apply Hincl. exact Hin.
      * apply IH in H; [|exact Hnd'|].
        -- destruct H as [H1 [H2 H3]]. split; [exact H1|]. split; [exact H2|].
           eapply incl_tran; eauto.
        -- intros key Hkey. unfold dict_keys in Hkey. apply in_map_iff in Hkey.
           destruct Hkey as [[k v] [<- Hkey]]. apply dict_set_In in Hkey.
           destruct Hkey as [E | Hkey].
           ++ injection E as -> ->. exact Hnotin.
           ++ intros Hin. apply (Hcs k); [apply (in_map fst) in Hkey; exact Hkey|].
              apply Hincl. exact Hin.
Qed.

(** The call when the switch of a session handler class raises its
    [SessionError] after the classes before it were switched. *)
Lemma call_after_session_error (self : Keyword Lib) (args : list Value)
  (kwargs kwargs1 kwargs1' : Kwargs) (w0 w1 : World Lib)
  (pre post : list (string * SessionHandler)) (n : string) (hcls : SessionHandler)
  (cs : RestoreSessions) (sname : Value) (e : Exn) :
  session_handlers = pre ++ (n, hcls) :: post ->
  switch_sessions pre kwargs [] w0 = (inr (None, kwargs1, cs), w1) ->
  auto_explicit (meta hcls) = true ->
  dict_pop string_dec (identifier_name (meta hcls)) kwargs1 = Some (sname, kwargs1') ->
  fst (switch (identifier_name (meta hcls)) sname (lib w1)) = Some e ->
  isinstance_exc e (SessionError hcls) = true ->
  let w2 := mkWorld (snd (switch (identifier_name (meta hcls)) sname (lib w1)))
                    (log w1 ++ [EvSwitch AtSessionSwitch (identifier_name (meta hcls)) sname]) in
  switch_and_dispatch self args kwargs w0 = (inr (inl e, cs, []), w2)
  /\ exists before after,
       log (snd (__call__ self args kwargs w0))
       = log w0 ++ before
         ++ [EvSwitch AtSessionSwitch (identifier_name (meta hcls)) sname] ++ after
       /\ Forall (switch_event AtSessionSwitch (session_identifiers pre)) before
       /\ Forall (switch_event AtSessionRestore (map fst (dict_keys cs))) after.
Proof.
  intros Hhs Hpre Ha Hp Hsw He w2.
  assert (Hss : switch_sessions session_handlers kwargs [] w0
                = (inr (Some e, kwargs1', cs), w2)).
  { rewrite Hhs, (switch_sessions_app pre _ _ _ _ _ _ _ Hpre).
    rewrite (switch_sessions_step n hcls post kwargs1 kwargs1' cs w1 sname Ha Hp).
    cbv zeta. rewrite Hsw, He. reflexivity. }
  pose proof (switch_and_dispatch_session_error self args _ _ _ _ _ _ Hss) as Hsd.
  split; [exact Hsd|].
  rewrite (call_after_dispatch _ _ _ _ _ _ _ _ Hsd). cbn [snd].
  destruct (switch_sessions_log pre kwargs [] w0) as [before [Hb Hfb]].
  rewrite Hpre in Hb. cbn [snd] in Hb.
  destruct (switch_back_log cs [] w2) as [after [Hl Hfa]].
  exists before, after. split; [|split; [exact Hfb|]].
  - rewrite Hl. unfold w2. cbn [log]. rewrite Hb, <- !app_assoc. reflexivity.
  - eapply Forall_impl; [|exact Hfa]. intros ev [[id [v [[] _]]] | H]. exact H.
Qed.



(** C4: when the switch of a session handler class raises its
    [SessionError], the error is captured with no context recorded and no
    call of the Keyword function; all the call does besides the session
    switches up to the failing one is to switch back the sessions of the
    handler classes before it. *)
Theorem session_error_stops_switching (self : Keyword Lib) (args : list Value)
  (kwargs kwargs1 kwargs1' : Kwargs) (w0 w1 : World Lib)
  (pre post : list (string * SessionHandler)) (n : string) (hcls : SessionHandler)
  (cs : RestoreSessions) (sname : Value) (e : Exn) :
  session_handlers = pre ++ (n, hcls) :: post ->
  switch_sessions pre kwargs [] w0 = (inr (None, kwargs1, cs), w1) ->
  auto_explicit (meta hcls) = true ->
  dict_pop string_dec (identifier_name (meta hcls)) kwargs1 = Some (sname, kwargs1') ->
  fst (switch (identifier_name (meta hcls)) sname (lib w1)) = Some e ->
  isinstance_exc e (SessionError hcls) = true ->
  let w2 := mkWorld (snd (switch (identifier_name (meta hcls)) sname (lib w1)))
                    (log w1 ++ [EvSwitch AtSessionSwitch (identifier_name (meta hcls)) sname]) in
  switch_and_dispatch self args kwargs w0 = (inr (inl e, cs, []), w2)
  /\ exists before after,
       log (snd (__call__ self args kwargs w0))
       = log w0 ++ before
         ++ [EvSwitch AtSessionSwitch (identifier_name (meta hcls)) sname] ++ after
       /\ Forall (switch_event AtSessionSwitch (session_identifiers pre)) before
       /\ Forall (switch_event AtSessionRestore (session_identifiers pre)) after.
Proof.
  intros Hhs Hpre Ha Hp Hsw He w2.
  destruct (call_after_session_error self args _ _ _ _ _ _ _ _ _ _ _ _
              Hhs Hpre Ha Hp Hsw He) as [Hsd [before [after [Hl [Hb Hf]]]]].
  split; [exact Hsd|]. exists before, after. split; [exact Hl|]. split; [exact Hb|].
  eapply Forall_impl; [|exact Hf]. intros ev. apply switch_event_incl.
  intros id Hid. apply in_map_iff in Hid. destruct Hid as [key [<- Hkey]].
  destruct (switch_sessions_keys _ _ _ _ _ _ _ _ Hpre key Hkey) as [[]|H]. exact H.
Qed.

(** C5, as the code has it: the current session of a handler class is
    read before its switch, and stored in [current_sessions] only after the
    switch returned.  When the switch raises the class's [SessionError],
    nothing is stored for the class, and the call does not switch that kind
    back. *)
Theorem session_recorded_after_switch (pre post : list (string * SessionHandler))
  (n : string) (hcls : SessionHandler) (kwargs kwargs1 kwargs1' : Kwargs)
  (w0 w1 : World Lib) (cs : RestoreSessions) (sname : Value) :
  session_handlers = pre ++ (n, hcls) :: post ->
  NoDup (dict_keys kwargs) ->
  switch_sessions pre kwargs [] w0 = (inr (None, kwargs1, cs), w1) ->
  auto_explicit (meta hcls) = true ->
  dict_pop string_dec (identifier_name (meta hcls)) kwargs1 = Some (sname, kwargs1') ->
  let identifier := identifier_name (meta hcls) in
  let key := (identifier, plural_identifier_name (meta hcls)) in
  let previous := get_session identifier (lib w1) in
  let w2 := mkWorld (snd (switch identifier sname (lib w1)))
                    (log w1 ++ [EvSwitch AtSessionSwitch identifier sname]) in
  dict_get key_eq_dec key cs = None
  /\ match fst (switch identifier sname (lib w1)) with
     | None =>
         switch_sessions session_handlers kwargs [] w0
         = switch_sessions post kwargs1' (dict_set key_eq_dec key previous cs) w2
     | Some e =>
         isinstance_exc e (SessionError hcls) = true ->
         forall (self : Keyword Lib) (args : list Value),
           switch_and_dispatch self args kwargs w0 = (inr (inl e, cs, []), w2)
           /\ logged (__call__ self args kwargs) w0
                     (fun ev => forall arg, ev <> EvSwitch AtSessionRestore identifier arg)
     end.
Proof.
  intros Hhs Hnd Hpre Ha Hp identifier key previous w2.
  destruct (switch_sessions_popped pre kwargs kwargs1 [] cs w0 w1 None Hnd
              (fun k (H : In k []) => False_ind _ H) Hpre) as [Hnd1 [Hcs _]].
  destruct (dict_pop_spec _ _ _ _ Hnd1 Hp) as [Hget _].
  assert (Hid : ~ In identifier (map fst (dict_keys cs))).
  { intros Hin. apply in_map_iff in Hin. destruct Hin as [k [E Hk]].
    apply (Hcs k Hk). rewrite E.
    destruct (in_dec string_dec identifier (dict_keys kwargs1)) as [i|ni]; [exact i|].
    apply (dict_get_None string_dec) in ni. fold identifier in Hget. congruence. }
  split.
  - apply (dict_get_None key_eq_dec). intros Hin. apply Hid.
    apply (in_map fst) in Hin. exact Hin.
  - destruct (fst (switch identifier sname (lib w1))) as [e|] eqn:Hsw.
    + intros He self args.
      destruct (call_after_session_error self args _ _ _ _ _ _ _ _ _ _ _ _
                  Hhs Hpre Ha Hp Hsw He) as [Hsd [before [after [Hl [Hb Hf]]]]].
      split; [exact Hsd|].
      exists (before ++ [EvSwitch AtSessionSwitch identifier sname] ++ after).
      split; [exact Hl|]. apply Forall_app. split; [|constructor].
      * eapply Forall_impl; [|exact Hb]. intros ev [id [v [_ ->]]] arg. discriminate.
      * intros arg. discriminate.
      * eapply Forall_impl; [|exact Hf]. intros ev [id [v [Hin ->]]] arg E.
        injection E as -> _. contradiction.
    + rewrite Hhs, (switch_sessions_app pre _ _ _ _ _ _ _ Hpre).
      rewrite (switch_sessions_step n hcls post kwargs1 kwargs1' cs w1 sname Ha Hp).
      cbv zeta. fold identifier. rewrite Hsw. reflexivity.
Qed.

End Protocol.

(** ** The protocol on example calls *)



(** The state and the log after that call. *)
Lemma scenario_connection_restored :
  snd (__call__ (libinstance := ConnLib) failing_ping [] [("connection", VStr "B")]
                (mkWorld conn_state []))
  = mkWorld conn_state
      [EvSwitch AtSessionSwitch "connection" (VStr "B");
       EvCall "ping" [] [];
       EvSwitch AtSessionRestore "connection" (VStr "A")].
Proof. reflexivity. Qed.


(** The call [Ping  connection=B  device=Q]: the connection is switched,
    the device [Q] is unknown, and the error is captured without a call of
    the implementation. *)
Lemma session_error_stops_switching_witness :
  switch_and_dispatch (libinstance := LabLib) ping []
    [("connection", VStr "B"); ("device", VStr "Q")] (mkWorld lab_state [])
  = (inr (inl (error_of "DeviceError" "Session not found"),
          [(("connection", "connections"), 1)], []),
     mkWorld (mkSpecLib (sl_stored lab_state) [("connection", 2); ("device", 10)] [] [])
       [EvSwitch AtSessionSwitch "connection" (VStr "B");
        EvSwitch AtSessionSwitch "device" (VStr "Q")]).
Proof.
  exact (proj1 (session_error_stops_switching (libinstance := LabLib) ping []
                  [("connection", VStr "B"); ("device", VStr "Q")]
                  [("device", VStr "Q")] []
                  (mkWorld lab_state [])
                  (mkWorld (mkSpecLib (sl_stored lab_state)
                                      [("connection", 2); ("device", 10)] [] [])
                           [EvSwitch AtSessionSwitch "connection" (VStr "B")])
                  [("Connection", connection_handler)] [] "Device" device_handler
                  [(("connection", "connections"), 1)] (VStr "Q")
                  (error_of "DeviceError" "Session not found")
                  eq_refl eq_refl eq_refl eq_refl eq_refl eq_refl)).
Defined.

Lemma NoDup_two_keys : NoDup (dict_keys [("connection", VStr "B"); ("device", VStr "Q")]).
Proof. distinct_strings. Qed.

(** The same call: nothing is stored for [device], whose switch raised. *)
Lemma session_recorded_after_switch_witness :
  dict_get key_eq_dec ("device", "devices") [(("connection", "connections"), 1)] = None
  /\ switch_and_dispatch (libinstance := LabLib) ping []
       [("connection", VStr "B"); ("device", VStr "Q")] (mkWorld lab_state [])
     = (inr (inl (error_of "DeviceError" "Session not found"),
             [(("connection", "connections"), 1)], []),
        mkWorld (mkSpecLib (sl_stored lab_state) [("connection", 2); ("device", 10)] [] [])
          [EvSwitch AtSessionSwitch "connection" (VStr "B");
           EvSwitch AtSessionSwitch "device" (VStr "Q")]).
Proof.
  pose proof (session_recorded_after_switch (libinstance := LabLib)
                [("Connection", connection_handler)] [] "Device" device_handler
                [("connection", VStr "B"); ("device", VStr "Q")]
                [("device", VStr "Q")] []
                (mkWorld lab_state [])
                (mkWorld (mkSpecLib (sl_stored lab_state)
                                    [("connection", 2); ("device", 10)] [] [])
                         [EvSwitch AtSessionSwitch "connection" (VStr "B")])
                [(("connection", "connections"), 1)] (VStr "Q")
                eq_refl NoDup_two_keys eq_refl eq_refl eq_refl) as [H1 H2].
  split; [exact H1|]. exact (proj1 (H2 eq_refl ping [])).
Defined.

(** C5 as stated fails: in the call [Ping  connection=Z] the switch raises
    [ConnectionError]; [current_sessions] stays empty and the call makes no
    attempt to switch the connection back. *)
Lemma failed_switch_not_recorded :
  fst (switch_sessions (libinstance := ConnLib) [("Connection", connection_handler)]
         [("connection", VStr "Z")] [] (mkWorld conn_state []))
  = inr (Some (error_of "ConnectionError" "Session not found"), [], [])
  /\ log (snd (__call__ (libinstance := ConnLib) ping [] [("connection", VStr "Z")]
                        (mkWorld conn_state [])))
     = [EvSwitch AtSessionSwitch "connection" (VStr "Z")].
Proof. split; reflexivity. Qed.

(** [kw(self, x, y=1, z=2, **options)] called with [foo=1]: the call is
    direct. *)
Lemma direct_call_by_own_signature_witness :
  dispatch (libinstance := PlainLib) xyz_options [VInt 0] [("foo", VInt 1)]
           (mkWorld fast_state [])
  = (inr (inr VNone),
     mkWorld fast_state [EvCall "kw" [VInt 0] [("foo", VInt 1)]]).
Proof.
  exact (proj2 (direct_call_by_own_signature (libinstance := PlainLib) xyz_options
                  [VInt 0] [VInt 0] [("foo", VInt 1)] (mkWorld fast_state [])
                  eq_refl (or_introl eq_refl))).
Defined.

(** C6 as stated fails: the implementation resolved for the active context
    [fast] declares [**options], yet with [foo=1] it is not called directly:
    [self.func] declares none, so the named argument is reshaped. *)
Lemma variant_signature_not_consulted :
  resolve (func with_variant) (contexts (LibraryInstance := PlainLib) fast_state)
  = fast_variant
  /\ truthy_str (as_keywords (impl_argspec fast_variant)) = true
  /\ log (snd (dispatch (libinstance := PlainLib) with_variant [] [("foo", VInt 1)]
                        (mkWorld fast_state [])))
     = [EvCall "kw_fast" [VStr "foo=1"] []].
Proof. repeat split; reflexivity. Qed.

Lemma NoDup_x_y : NoDup (dict_keys [("x", VInt 2); ("y", VInt 3)]).
Proof. distinct_strings. Qed.

Lemma NoDup_self_x : NoDup ["self"; "x"].
Proof. distinct_strings. Qed.

(** [kw(self, x)] called with [x=2  y=3]: [x] becomes positional, [y] the
    literal ["y=3"]. *)
Lemma reshaped_call_witness :
  dispatch (libinstance := PlainLib) takes_x [] [("x", VInt 2); ("y", VInt 3)]
           (mkWorld fast_state [])
  = (inr (inr VNone),
     mkWorld fast_state [EvCall "kw" [VInt 2; VStr "y=3"] []]).
Proof.
  exact (reshaped_call (libinstance := PlainLib) takes_x [] []
           [("x", VInt 2); ("y", VInt 3)] (mkWorld fast_state [])
           eq_refl eq_refl ltac:(discriminate) NoDup_self_x NoDup_x_y).
Defined.

(** C7 as stated fails: [kw(self, x)] called with [1] and [x=2]: the
    parameter [x] is filled already, so [x=2] is neither moved nor turned
    into a literal; it is passed as a named argument. *)
Lemma filled_parameter_stays_named :
  truthy_str (as_keywords (argspec (func takes_x))) = false
  /\ log (snd (dispatch (libinstance := PlainLib) takes_x [VInt 1] [("x", VInt 2)]
                        (mkWorld fast_state [])))
     = [EvCall "kw" [VInt 1] [("x", VInt 2)]].
Proof. split; reflexivity. Qed.

(** C1 as stated fails: the current connection has no alias; the call
    [Ping  connection=B] returns, and the current connection is then [B]. *)
Lemma unnamed_session_not_restored :
  fst (__call__ (libinstance := ConnLib) ping [] [("connection", VStr "B")]
                (mkWorld unnamed_state []))
  = inr VNone
  /\ get_session (LibraryInstance := ConnLib) "connection" unnamed_state = 3
  /\ get_session (LibraryInstance := ConnLib) "connection"
       (lib (snd (__call__ (libinstance := ConnLib) ping [] [("connection", VStr "B")]
                           (mkWorld unnamed_state []))))
     = 2.
Proof. repeat split; reflexivity. Qed.

(** ** The call: what a call that returns went through *)

Section Returns.
Context {Lib : Type} {libinstance : LibraryInstance Lib}.

(** One turn of the context loop for a handler class that is skipped. *)
Lemma switch_contexts_skip (hcls : ContextHandler) (hs : list ContextHandler)
  (kwargs : Kwargs) (cc : RestoreContexts) (w : World Lib) :
  ctx_auto_explicit hcls = false
  \/ dict_pop string_dec (str_lower (ch_name hcls)) kwargs = None ->
  switch_contexts (hcls :: hs) kwargs cc w = switch_contexts hs kwargs cc w.
Proof.
  intros [H|H]; cbn [switch_contexts]; [rewrite H; reflexivity|].
  destruct (negb (ctx_auto_explicit hcls)); [reflexivity|].
  cbv zeta. rewrite H. reflexivity.
Qed.

(** One turn of the context loop for a handler class whose identifier is a
    named argument. *)
Lemma switch_contexts_step (hcls : ContextHandler) (hs : list ContextHandler)
  (kwargs kwargs' : Kwargs) (cc : RestoreContexts) (w : World Lib) (ctxname : Value) :
  ctx_auto_explicit hcls = true ->
  dict_pop string_dec (str_lower (ch_name hcls)) kwargs = Some (ctxname, kwargs') ->
  let identifier := str_lower (ch_name hcls) in
  let w' := mkWorld (snd (switch identifier ctxname (lib w)))
                    (log w ++ [EvSwitch AtContextSwitch identifier ctxname]) in
  switch_contexts (hcls :: hs) kwargs cc w
  = match fst (switch identifier ctxname (lib w)) with
    | None =>
        switch_contexts hs kwargs'
          (dict_set string_dec identifier (get_context identifier (lib w)) cc) w'
    | Some e =>
        if isinstance_exc e (ContextError hcls)
        then (inr (Some e, kwargs', cc), w')
        else (inl e, w')
    end.
Proof.
  intros Ha Hp identifier w'. subst identifier w'.
  cbn [switch_contexts]. rewrite Ha. cbn [negb]. cbv zeta.
  rewrite Hp. unfold bind, read, try_. rewrite do_switch_eq.
  destruct (fst (switch (str_lower (ch_name hcls)) ctxname (lib w))) as [e|];
    [|reflexivity].
  destruct (isinstance_exc e (ContextError hcls)); reflexivity.
Qed.

Lemma switch_contexts_cases (hcls : ContextHandler) (hs : list ContextHandler)
  (kwargs : Kwargs) (cc : RestoreContexts) (w : World Lib) :
  switch_contexts (hcls :: hs) kwargs cc w = switch_contexts hs kwargs cc w
  \/ exists ctxname kwargs',
       ctx_auto_explicit hcls = true
       /\ dict_pop string_dec (str_lower (ch_name hcls)) kwargs = Some (ctxname, kwargs').
Proof.
  destruct (ctx_auto_explicit hcls) eqn:Ha.
  - destruct (dict_pop string_dec (str_lower (ch_name hcls)) kwargs)
      as [[ctxname kwargs']|] eqn:Hp.
    + right. exists ctxname, kwargs'. auto.
    + left. apply switch_contexts_skip. auto.
  - left. apply switch_contexts_skip. auto.
Qed.

(** A call that returns: its first part returned the result, and switching
    back returned. *)
Lemma call_returns_inv (self : Keyword Lib) (args : list Value) (kwargs : Kwargs)
  (w w' : World Lib) (result : Value) :
  __call__ self args kwargs w = (inr result, w') ->
  exists cs cc w3,
    switch_and_dispatch self args kwargs w = (inr (inr result, cs, cc), w3)
    /\ switch_back cs cc w3 = (inr tt, w').
Proof.
  unfold __call__, bind.
  destruct (switch_and_dispatch self args kwargs w) as [[e|[[outcome cs] cc]] w3];
    [discriminate|].
  destruct (switch_back cs cc w3) as [[e|[]] w4] eqn:Hb; [discriminate|].
  destruct outcome as [e|v]; [discriminate|].
  intros [= -> ->]. exists cs, cc, w3. auto.
Qed.

(** A first part that returns a result: both loops ended without error,
    and the Keyword function returned the result. *)
Lemma switch_and_dispatch_returns_inv (self : Keyword Lib) (args : list Value)
  (kwargs : Kwargs) (w w3 : World Lib) (result : Value) (cs : RestoreSessions)
  (cc : RestoreContexts) :
  switch_and_dispatch self args kwargs w = (inr (inr result, cs, cc), w3) ->
  exists kwargs1 w1 kwargs2 w2,
    switch_sessions session_handlers kwargs [] w = (inr (None, kwargs1, cs), w1)
    /\ switch_contexts (context_handlers self) kwargs1 [] w1
       = (inr (None, kwargs2, cc), w2)
    /\ dispatch self args kwargs2 w2 = (inr (inr result), w3).
Proof.
  unfold switch_and_dispatch, bind at 1.
  destruct (switch_sessions session_handlers kwargs [] w)
    as [[e|[[error kwargs1] cs1]] w1] eqn:Hs; [discriminate|].
  unfold bind at 1. destruct error as [e|].
  - cbn. discriminate.
  - destruct (switch_contexts (context_handlers self) kwargs1 [] w1)
      as [[e|[[error kwargs2] cc2]] w2] eqn:Hc; [discriminate|].
    unfold bind. destruct error as [e|]; [cbn; discriminate|].
    destruct (dispatch self args kwargs2 w2) as [[e|outcome] w3'] eqn:Hd; [discriminate|].
    cbn. intros [= -> -> -> ->]. exists kwargs1, w1, kwargs2, w2. auto.
Qed.

Lemma switch_back_returns_inv (cs : RestoreSessions) (cc : RestoreContexts)
  (w w' : World Lib) :
  switch_back cs cc w = (inr tt, w') ->
  exists w'', restore_contexts cc w = (inr tt, w'')
              /\ restore_sessions cs w'' = (inr tt, w').
Proof.
  unfold switch_back, bind.
  destruct (restore_contexts cc w) as [[e|[]] w''] eqn:Hr; [discriminate|].
  intros H. exists w''. auto.
Qed.

Lemma resolve_In (f : KeywordFunc Lib) (active : list Context) :
  resolve f active = f_base f \/ In (resolve f active) (map snd (f_contexts f)).
Proof.
  unfold resolve. generalize (f_base f) as acc.
  induction (f_contexts f) as [|[c i] l IH]; intros acc; [left; reflexivity|].
  cbn [fold_left map snd]. destruct (in_dec Context_eq_dec c active).
  - destruct (IH i) as [-> | H]; right; [left; reflexivity | right; exact H].
  - destruct (IH acc) as [-> | H]; [left; reflexivity | right; right; exact H].
Qed.

(** When no implementation of the Keyword changes the instance, calling
    the Keyword function leaves it as it was. *)
Lemma dispatch_lib (self : Keyword Lib) (args : list Value) (kwargs : Kwargs)
  (w : World Lib) :
  (forall impl, impl = f_base (func self) \/ In impl (map snd (f_contexts (func self))) ->
                forall l a k, snd (impl_run impl l a k) = l) ->
  lib (snd (dispatch self args kwargs w)) = lib w.
Proof.
  intros Himpl. unfold dispatch, bind at 1.
  pose proof (cast_pure (func self) args w) as Hc.
  destruct (cast (func self) args w) as [[e|args'] w1]; cbn [snd] in Hc; subst w1;
    [reflexivity|].
  unfold read at 1, bind at 1.
  pose proof (Himpl _ (resolve_In (func self) (contexts (lib w)))) as Hr.
  destruct (calls_directly self kwargs).
  - unfold bind, try_. rewrite invoke_eq.
    destruct (fst (impl_run (resolve (func self) (contexts (lib w))) (lib w) args' kwargs))
      as [e|v]; [destruct (isinstance_exc e "Exception")|]; cbn; apply Hr.
  - destruct (reshape self args' kwargs) as [a k]. unfold try_. rewrite invoke_eq.
    cbn. apply Hr.
Qed.

End Returns.

(** ** Calls on an instance with sessions and contexts *)

Lemma NoDup_map_inj {A B : Type} (f : A -> B) (l : list A) (x y : A) :
  NoDup (map f l) -> In x l -> In y l -> f x = f y -> x = y.
Proof.
  induction l as [|a l IH]; cbn; [tauto|].
  intros Hnd Hx Hy E. inversion Hnd as [|? ? Hnotin Hnd']; subst.
  destruct Hx as [-> | Hx], Hy as [-> | Hy]; auto.
  - contradiction Hnotin. rewrite E. apply in_map. exact Hy.
  - contradiction Hnotin. rewrite <- E. apply in_map. exact Hx.
Qed.

Lemma dict_set_keys_incl {K V : Type} (K_eq_dec : forall a b : K, {a = b} + {a <> b})
  (k : K) (v : V) (d : dict K V) :
  In k (dict_keys (dict_set K_eq_dec k v d))
  /\ incl (dict_keys d) (dict_keys (dict_set K_eq_dec k v d)).
Proof.
  induction d as [|[k' v'] d [IH1 IH2]]; cbn.
  - split; [auto | intros x []].
  - destruct (K_eq_dec k k') as [->|Hne]; cbn.
    + split; [auto | apply incl_refl].
    + split; [auto|]. intros x [<-|Hx]; [left; reflexivity | right; apply IH2, Hx].
Qed.

Lemma In_session_identifiers (handlers : list (string * SessionHandler)) (n : string)
  (hcls : SessionHandler) :
  In (n, hcls) handlers ->
  In (identifier_name (meta hcls)) (session_identifiers handlers).
Proof.
  intros H. unfold session_identifiers. apply in_map_iff. exists (n, hcls). auto.
Qed.

Section SpecFacts.
Variable cls : string.
Variable handlers : list (string * SessionHandler).

Lemma spec_switch_error (identifier : string) (arg : Value) (l : SpecLib) (e : Exn) :
  fst (spec_switch handlers identifier arg l) = Some e ->
  snd (spec_switch handlers identifier arg l) = l.
Proof.
  unfold spec_switch.
  destruct (find _ handlers) as [[n hcls]|].
  - destruct (dict_get Value_eq_dec arg _); [discriminate | reflexivity].
  - destruct (dict_get string_dec identifier (sl_handlers l)) as [[hcls names]|];
      [|reflexivity].
    destruct arg; try reflexivity.
    destruct (in_dec string_dec s names); [discriminate | reflexivity].
Qed.

(** A switch that returns made a stored session current, for a session
    identifier, or a context current, for another identifier. *)
Lemma spec_switch_inv (identifier : string) (arg : Value) (l : SpecLib) :
  fst (spec_switch handlers identifier arg l) = None ->
  (exists n hcls r,
     In (n, hcls) handlers
     /\ identifier_name (meta hcls) = identifier
     /\ dict_get Value_eq_dec arg
          (spec_get_sessions (plural_identifier_name (meta hcls)) l) = Some r
     /\ snd (spec_switch handlers identifier arg l)
        = mkSpecLib (sl_stored l) (dict_set string_dec identifier r (sl_session l))
                    (sl_handlers l) (sl_context l))
  \/ (~ In identifier (session_identifiers handlers)
      /\ exists name,
           arg = VStr name
           /\ snd (spec_switch handlers identifier arg l)
              = mkSpecLib (sl_stored l) (sl_session l) (sl_handlers l)
                          (dict_set string_dec identifier name (sl_context l))).
Proof.
  unfold spec_switch.
  destruct (find (fun h => String.eqb (identifier_name (meta (snd h))) identifier) handlers)
    as [[n hcls]|] eqn:Hfind.
  - apply find_some in Hfind. destruct Hfind as [Hin Heq]. cbn in Heq.
    apply String.eqb_eq in Heq.
    destruct (dict_get Value_eq_dec arg _) as [r|] eqn:Hget; [|discriminate].
    intros _. left. exists n, hcls, r. auto.
  - assert (Hnot : ~ In identifier (session_identifiers handlers)).
    { intros Hin. unfold session_identifiers in Hin. apply in_map_iff in Hin.
      destruct Hin as [h [E Hin]]. pose proof (find_none _ _ Hfind h Hin) as Hf.
      cbn in Hf. rewrite E, String.eqb_refl in Hf. discriminate. }
    destruct (dict_get string_dec identifier (sl_handlers l)) as [[hcls names]|];
      [|discriminate].
    destruct arg as [| |?|name]; try discriminate.
    destruct (in_dec string_dec name names); [|discriminate].
    intros _. right. split; [exact Hnot|]. exists name. auto.
Qed.

Lemma spec_get_session_set_same (identifier : string) (r : Ref) (l : SpecLib) :
  spec_get_session identifier
    (mkSpecLib (sl_stored l) (dict_set string_dec identifier r (sl_session l))
               (sl_handlers l) (sl_context l)) = r.
Proof. unfold spec_get_session. cbn. now rewrite dict_get_set_same. Qed.

Lemma spec_get_session_set_other (identifier identifier' : string) (r : Ref) (l : SpecLib) :
  identifier' <> identifier ->
  spec_get_session identifier'
    (mkSpecLib (sl_stored l) (dict_set string_dec identifier r (sl_session l))
               (sl_handlers l) (sl_context l))
  = spec_get_session identifier' l.
Proof. intros H. unfold spec_get_session. cbn. now rewrite dict_get_set_other. Qed.

Lemma previous_sessions_stored_In (kwargs : Kwargs) (l : SpecLib) (n : string)
  (hcls : SessionHandler) :
  previous_sessions_stored handlers kwargs l = true ->
  In (n, hcls) handlers ->
  auto_explicit (meta hcls) = true ->
  In (identifier_name (meta hcls)) (dict_keys kwargs) ->
  exists alias,
    In (alias, spec_get_session (identifier_name (meta hcls)) l)
       (spec_get_sessions (plural_identifier_name (meta hcls)) l).
Proof.
  intros Hall Hin Ha Hk. unfold previous_sessions_stored in Hall.
  rewrite forallb_forall in Hall. specialize (Hall _ Hin). cbn in Hall.
  rewrite Ha in Hall. unfold dict_mem in Hall.
  destruct (dict_get string_dec (identifier_name (meta hcls)) kwargs) eqn:Hget.
  - cbn in Hall. apply existsb_exists in Hall. destruct Hall as [[alias r] [Hi Hr]].
    cbn in Hr. apply Nat.eqb_eq in Hr. subst r. exists alias. exact Hi.
  - apply dict_get_None in Hget. contradiction.
Qed.

End SpecFacts.

Section SpecCall.
Variable cls : string.
Variable handlers : list (string * SessionHandler).

Local Abbreviation L := (spec_library cls handlers).

(** The session loop keeps [sessions_recorded]. *)
Lemma spec_switch_sessions_inv (l0 : SpecLib) (kwargs0 : Kwargs) :
  previous_sessions_stored handlers kwargs0 l0 = true ->
  forall (hs : list (string * SessionHandler)) (kwargs kwargs1 : Kwargs)
         (cs cs1 : RestoreSessions) (w w1 : World SpecLib) (error : option Exn),
    incl hs handlers ->
    NoDup (dict_keys kwargs) ->
    incl (dict_keys kwargs) (dict_keys kwargs0) ->
    (forall key, In key (dict_keys cs) -> ~ In (fst key) (dict_keys kwargs)) ->
    sessions_recorded handlers l0 cs (lib w) ->
    switch_sessions (libinstance := L) hs kwargs cs w = (inr (error, kwargs1, cs1), w1) ->
    sessions_recorded handlers l0 cs1 (lib w1).
Proof.
  intros Hstored hs. induction hs as [|[n hcls] hs IH];
    intros kwargs kwargs1 cs cs1 w w1 error Hhs Hnd Hincl Hpop Hinv H.
  - cbn in H. injection H as <- <- <- <-. exact Hinv.
  - assert (Hhs' : incl hs handlers) by (intros x Hx; apply Hhs; right; exact Hx).
    assert (Hh : In (n, hcls) handlers) by (apply Hhs; left; reflexivity).
    destruct (switch_sessions_cases (libinstance := L) n hcls hs kwargs cs w)
      as [E | [sname [kwargs' [Ha Hp]]]].
    + rewrite E in H. eapply IH; eauto.
    + rewrite (switch_sessions_step (libinstance := L) n hcls hs kwargs kwargs' cs w
                 sname Ha Hp) in H.
      cbv zeta in H. cbn [switch get_session spec_library] in H.
      set (identifier := identifier_name (meta hcls)) in *.
      set (plural_identifier := plural_identifier_name (meta hcls)) in *.
      destruct (dict_pop_spec _ _ _ _ Hnd Hp) as [Hget [Hnd' [Hnotin Hincl']]].
      assert (Hkey : In identifier (dict_keys kwargs)).
      { apply dict_get_In in Hget. apply (in_map fst) in Hget. exact Hget. }
      assert (Hfresh : ~ In identifier (map fst (dict_keys cs))).
      { intros Hin. apply in_map_iff in Hin. destruct Hin as [key [E Hin]].
        apply (Hpop key Hin). rewrite E. exact Hkey. }
      destruct (fst (spec_switch handlers identifier sname (lib w))) as [e|] eqn:Hsw.
      * destruct (isinstance_exc e (SessionError hcls)); [|discriminate].
        injection H as <- <- <- <-. cbn [lib].
        rewrite (spec_switch_error handlers _ _ _ _ Hsw). exact Hinv.
      * destruct Hinv as [Hst [Hha [Hctx [Hrec Hsame]]]].
        destruct (spec_switch_inv handlers _ _ _ Hsw)
          as [[n' [hcls' [r [Hin' [Hid' [Hr Hl']]]]]] | [Hnot _]].
        2:{ contradiction Hnot. exact (In_session_identifiers _ _ _ Hh). }
        refine (IH kwargs' kwargs1 _ cs1 _ w1 error Hhs' Hnd' _ _ _ H).
        -- eapply incl_tran; eauto.
        -- intros key Hk. unfold dict_keys in Hk. apply in_map_iff in Hk.
           destruct Hk as [[k v] [<- Hk]]. apply dict_set_In in Hk.
           destruct Hk as [E | Hk].
           ++ injection E as -> _. exact Hnotin.
           ++ intros Hin. apply (Hpop k); [apply (in_map fst) in Hk; exact Hk|].
              apply Hincl'. exact Hin.
        -- cbn [lib]. rewrite Hl'. unfold sessions_recorded. cbn [sl_stored sl_handlers sl_context].
           split; [exact Hst|]. split; [exact Hha|]. split; [exact Hctx|]. split.
           ++ intros id pl r' Hi. apply dict_set_In in Hi. destruct Hi as [E | Hi].
              ** injection E as -> -> ->. rewrite (Hsame _ Hfresh).
                 split; [reflexivity|]. split; [exists n, hcls; auto|].
                 apply (previous_sessions_stored_In handlers kwargs0 l0 n hcls); auto.
              ** apply Hrec. exact Hi.
           ++ intros id Hid.
              destruct (dict_set_keys_incl key_eq_dec (identifier, plural_identifier)
                          (spec_get_session identifier (lib w)) cs) as [Hk1 Hk2].
              assert (Hne : id <> identifier).
              { intros ->. apply Hid. apply (in_map fst) in Hk1. exact Hk1. }
              rewrite spec_get_session_set_other by exact Hne.
              apply Hsame. intros Hin. apply Hid.
              apply in_map_iff in Hin. destruct Hin as [key [E Hin]].
              apply in_map_iff. exists key. split; [exact E | apply Hk2; exact Hin].
Qed.

(** The context loop keeps [contexts_recorded]. *)
Lemma spec_switch_contexts_inv (l1 : SpecLib) :
  forall (hs : list ContextHandler) (kwargs kwargs2 : Kwargs)
         (cc cc2 : RestoreContexts) (w w2 : World SpecLib) (error : option Exn),
    (forall hcls, In hcls hs ->
                  ~ In (str_lower (ch_name hcls)) (session_identifiers handlers)) ->
    NoDup (dict_keys kwargs) ->
    (forall identifier, In identifier (dict_keys cc) -> ~ In identifier (dict_keys kwargs)) ->
    contexts_recorded handlers l1 cc (lib w) ->
    switch_contexts (libinstance := L) hs kwargs cc w = (inr (error, kwargs2, cc2), w2) ->
    contexts_recorded handlers l1 cc2 (lib w2).
Proof.
  intros hs. induction hs as [|hcls hs IH];
    intros kwargs kwargs2 cc cc2 w w2 error Hhs Hnd Hpop Hinv H.
  - cbn in H. injection H as <- <- <- <-. exact Hinv.
  - assert (Hhs' : forall h, In h hs ->
                     ~ In (str_lower (ch_name h)) (session_identifiers handlers))
      by (intros h Hh; apply Hhs; right; exact Hh).
    assert (Hh : ~ In (str_lower (ch_name hcls)) (session_identifiers handlers))
      by (apply Hhs; left; reflexivity).
    destruct (switch_contexts_cases (libinstance := L) hcls hs kwargs cc w)
      as [E | [ctxname [kwargs' [Ha Hp]]]].
    + rewrite E in H. eapply IH; eauto.
    + rewrite (switch_contexts_step (libinstance := L) hcls hs kwargs kwargs' cc w
                 ctxname Ha Hp) in H.
      cbv zeta in H. cbn [switch get_context spec_library] in H.
      set (identifier := str_lower (ch_name hcls)) in *.
      destruct (dict_pop_spec _ _ _ _ Hnd Hp) as [Hget [Hnd' [Hnotin Hincl']]].
      assert (Hkey : In identifier (dict_keys kwargs)).
      { apply dict_get_In in Hget. apply (in_map fst) in Hget. exact Hget. }
      assert (Hfresh : ~ In identifier (dict_keys cc)).
      { intros Hin. apply (Hpop identifier Hin). exact Hkey. }
      destruct (fst (spec_switch handlers identifier ctxname (lib w))) as [e|] eqn:Hsw.
      * destruct (isinstance_exc e (ContextError hcls)); [|discriminate].
        injection H as <- <- <- <-. cbn [lib].
        rewrite (spec_switch_error handlers _ _ _ _ Hsw). exact Hinv.
      * destruct Hinv as [Hst [Hha [Hse [Hrec Hsame]]]].
        destruct (spec_switch_inv handlers _ _ _ Hsw)
          as [[n' [hcls' [r [Hin' [Hid' _]]]]] | [_ [name [-> Hl']]]].
        { contradiction Hh. rewrite <- Hid'. exact (In_session_identifiers _ _ _ Hin'). }
        refine (IH kwargs' kwargs2 _ cc2 _ w2 error Hhs' Hnd' _ _ H).
        -- intros id Hk. unfold dict_keys in Hk. apply in_map_iff in Hk.
           destruct Hk as [[k v] [<- Hk]]. apply dict_set_In in Hk.
           destruct Hk as [E | Hk].
           ++ injection E as -> _. exact Hnotin.
           ++ intros Hin. apply (Hpop k); [apply (in_map fst) in Hk; exact Hk|].
              apply Hincl'. exact Hin.
        -- cbn [lib]. rewrite Hl'. unfold contexts_recorded.
           cbn [sl_stored sl_handlers sl_session sl_context].
           split; [exact Hst|]. split; [exact Hha|]. split; [exact Hse|]. split.
           ++ intros id v Hi. apply dict_set_In in Hi. destruct Hi as [E | Hi].
              ** injection E as -> ->. split; [|exact Hh].
                 unfold spec_get_context. rewrite (Hsame _ Hfresh). reflexivity.
              ** apply Hrec. exact Hi.
           ++ intros id Hid.
              destruct (dict_set_keys_incl string_dec identifier
                          (spec_get_context identifier (lib w)) cc) as [Hk1 Hk2].
              assert (Hne : id <> identifier) by (intros ->; apply Hid; exact Hk1).
              rewrite dict_get_set_other by exact Hne.
              apply Hsame. intros Hin. apply Hid. apply Hk2. exact Hin.
Qed.

(** Switching back the contexts recorded gives every kind the current
    context it had in [l1]. *)
Lemma spec_restore_contexts_inv (l1 : SpecLib) (cc : RestoreContexts) :
  (forall identifier v,
      In (identifier, v) cc ->
      v = spec_get_context identifier l1
      /\ ~ In identifier (session_identifiers handlers)) ->
  forall w w' : World SpecLib,
    restore_contexts (libinstance := L) cc w = (inr tt, w') ->
    sl_stored (lib w') = sl_stored (lib w)
    /\ sl_handlers (lib w') = sl_handlers (lib w)
    /\ sl_session (lib w') = sl_session (lib w)
    /\ forall identifier,
         In identifier (dict_keys cc)
         \/ dict_get string_dec identifier (sl_context (lib w))
            = dict_get string_dec identifier (sl_context l1) ->
         dict_get string_dec identifier (sl_context (lib w'))
         = dict_get string_dec identifier (sl_context l1).
Proof.
  induction cc as [|[identifier v] cc IH]; intros Hrec w w' H.
  - cbn in H. injection H as <-. repeat split; auto. intros id [[]|E]. exact E.
  - cbn [restore_contexts] in H. unfold bind in H. rewrite do_switch_eq in H.
    cbn [switch spec_library] in H.
    destruct (fst (spec_switch handlers identifier v (lib w))) as [e|] eqn:Hsw;
      [discriminate|].
    destruct (Hrec identifier v (or_introl eq_refl)) as [Hv Hnot].
    destruct (spec_switch_inv handlers _ _ _ Hsw)
      as [[n' [hcls' [r [Hin' [Hid' _]]]]] | [_ [name [-> Hl']]]].
    { contradiction Hnot. rewrite <- Hid'. exact (In_session_identifiers _ _ _ Hin'). }
    apply IH in H; [|intros id v' Hi; apply Hrec; right; exact Hi].
    cbn [lib] in H. rewrite Hl' in H. cbn [sl_stored sl_handlers sl_session sl_context] in H.
    destruct H as [H1 [H2 [H3 H4]]].
    split; [exact H1|]. split; [exact H2|]. split; [exact H3|].
    assert (Hname : dict_get string_dec identifier (sl_context l1) = Some name).
    { unfold spec_get_context in Hv.
      destruct (dict_get string_dec identifier (sl_context l1)); congruence. }
    intros id Hid. apply H4.
    destruct (string_dec id identifier) as [->|Hne].
    + right. rewrite dict_get_set_same. symmetry. exact Hname.
    + destruct Hid as [[E|Hin]|E]; [cbn in E; congruence | left; exact Hin |].
      right. rewrite dict_get_set_other by exact Hne. exact E.
Qed.

(** The inner loop that switches back one kind leaves the other kinds
    alone and makes the recorded session current when it is stored under
    an alias. *)
Lemma spec_switch_to_instance_inv (n : string) (hcls : SessionHandler)
  (session : Ref) (stored : list (Value * Ref)) :
  NoDup (session_identifiers handlers) ->
  In (n, hcls) handlers ->
  NoDup (dict_keys stored) ->
  forall (items : list (Value * Ref)) (w w' : World SpecLib),
    incl items stored ->
    spec_get_sessions (plural_identifier_name (meta hcls)) (lib w) = stored ->
    switch_to_instance (libinstance := L) (identifier_name (meta hcls)) session items w
    = (inr tt, w') ->
    sl_stored (lib w') = sl_stored (lib w)
    /\ sl_handlers (lib w') = sl_handlers (lib w)
    /\ sl_context (lib w') = sl_context (lib w)
    /\ (forall identifier,
          identifier <> identifier_name (meta hcls) ->
          spec_get_session identifier (lib w') = spec_get_session identifier (lib w))
    /\ ((exists alias, In (alias, session) items)
         \/ spec_get_session (identifier_name (meta hcls)) (lib w) = session ->
         spec_get_session (identifier_name (meta hcls)) (lib w') = session).
Proof.
  intros Hids Hh Hnd items.
  induction items as [|[sname sinstance] items IH]; intros w w' Hincl Hst H.
  - cbn in H. injection H as <-. repeat split; auto. intros [[alias []]|E]. exact E.
  - assert (Hincl' : incl items stored) by (intros x Hx; apply Hincl; right; exact Hx).
    cbn [switch_to_instance] in H. unfold bind in H.
    destruct (Nat.eqb sinstance session) eqn:Heq.
    + apply Nat.eqb_eq in Heq. subst sinstance.
      rewrite do_switch_eq in H. cbn [switch spec_library] in H.
      destruct (fst (spec_switch handlers (identifier_name (meta hcls)) sname (lib w)))
        as [e|] eqn:Hsw; [discriminate|].
      destruct (spec_switch_inv handlers _ _ _ Hsw)
        as [[n' [hcls' [r [Hin' [Hid' [Hr Hl']]]]]] | [Hnot _]].
      2:{ contradiction Hnot. exact (In_session_identifiers _ _ _ Hh). }
      assert (E : (n', hcls') = (n, hcls)).
      { apply (NoDup_map_inj (fun h => identifier_name (meta (snd h))) handlers); auto. }
      injection E as -> ->. rewrite Hst in Hr.
      rewrite (In_dict_get Value_eq_dec sname session stored Hnd
                 (Hincl _ (or_introl eq_refl))) in Hr.
      injection Hr as <-.
      apply IH in H; [|exact Hincl'|cbn [lib]; rewrite Hl'; exact Hst].
      cbn [lib] in H. rewrite Hl' in H. cbn [sl_stored sl_handlers sl_context] in H.
      destruct H as [H1 [H2 [H3 [H4 H5]]]].
      split; [exact H1|]. split; [exact H2|]. split; [exact H3|]. split.
      * intros id Hne. rewrite (H4 id Hne). apply spec_get_session_set_other. exact Hne.
      * intros _. apply H5. right. apply spec_get_session_set_same.
    + cbn in H. apply IH in H; [|exact Hincl'|exact Hst].
      destruct H as [H1 [H2 [H3 [H4 H5]]]]. repeat split; auto.
      intros [[alias [E|Hin]]|E]; apply H5; auto.
      * injection E as _ ->. rewrite Nat.eqb_refl in Heq. discriminate.
      * left. exists alias. exact Hin.
Qed.

(** Switching back the sessions recorded gives every kind the current
    session it had in [l0]. *)
Lemma spec_restore_sessions_inv (l0 : SpecLib) (cs : RestoreSessions) :
  NoDup (session_identifiers handlers) ->
  (forall plural_identifier, NoDup (dict_keys (spec_get_sessions plural_identifier l0))) ->
  (forall identifier plural_identifier r,
      In ((identifier, plural_identifier), r) cs ->
      r = spec_get_session identifier l0
      /\ (exists n hcls,
            In (n, hcls) handlers
            /\ identifier_name (meta hcls) = identifier
            /\ plural_identifier_name (meta hcls) = plural_identifier)
      /\ (exists alias, In (alias, r) (spec_get_sessions plural_identifier l0))) ->
  forall w w' : World SpecLib,
    sl_stored (lib w) = sl_stored l0 ->
    restore_sessions (libinstance := L) cs w = (inr tt, w') ->
    sl_stored (lib w') = sl_stored (lib w)
    /\ sl_handlers (lib w') = sl_handlers (lib w)
    /\ sl_context (lib w') = sl_context (lib w)
    /\ forall identifier,
         In identifier (map fst (dict_keys cs))
         \/ spec_get_session identifier (lib w) = spec_get_session identifier l0 ->
         spec_get_session identifier (lib w') = spec_get_session identifier l0.
Proof.
  intros Hids Hnd.
  induction cs as [|[[identifier plural_identifier] session] cs IH]; intros Hrec w w' Hst H.
  - cbn in H. injection H as <-. repeat split; auto. intros id [[]|E]. exact E.
  - cbn [restore_sessions] in H. unfold bind at 1, read in H. unfold bind in H.
    cbn [get_sessions spec_library] in H.
    destruct (switch_to_instance (libinstance := L) identifier session
                (spec_get_sessions plural_identifier (lib w)) w) as [[e|[]] w1] eqn:Hsi;
      [discriminate|].
    destruct (Hrec identifier plural_identifier session (or_introl eq_refl))
      as [Hs [[n [hcls [Hh [Hid Hpl]]]] [alias Halias]]].
    subst identifier plural_identifier.
    assert (Hsame : forall pl l, sl_stored l = sl_stored l0 ->
                                 spec_get_sessions pl l = spec_get_sessions pl l0).
    { intros pl l E. unfold spec_get_sessions. rewrite E. reflexivity. }
    apply (spec_switch_to_instance_inv n hcls session
             (spec_get_sessions (plural_identifier_name (meta hcls)) l0)
             Hids Hh (Hnd _)) in Hsi;
      [|rewrite (Hsame _ _ Hst); apply incl_refl | apply Hsame; exact Hst].
    destruct Hsi as [S1 [S2 [S3 [S4 S5]]]].
    apply IH in H; [|intros id pl r Hi; apply Hrec; right; exact Hi | congruence].
    destruct H as [H1 [H2 [H3 H4]]].
    split; [congruence|]. split; [congruence|]. split; [congruence|].
    intros id Hid. apply H4.
    destruct (string_dec id (identifier_name (meta hcls))) as [->|Hne].
    + right. rewrite <- Hs. apply S5. left. exists alias.
      rewrite (Hsame _ _ Hst). exact Halias.
    + destruct Hid as [[E|Hin]|E]; [cbn in E; congruence | left; exact Hin |].
      right. rewrite (S4 id Hne). exact E.
Qed.

End SpecCall.

Lemma spec_contexts_ext (l l' : SpecLib) :
  sl_handlers l' = sl_handlers l ->
  (forall identifier,
      dict_get string_dec identifier (sl_context l')
      = dict_get string_dec identifier (sl_context l)) ->
  spec_contexts l' = spec_contexts l.
Proof.
  intros Hh Hc. unfold spec_contexts. rewrite Hh. apply flat_map_ext.
  intros [identifier [hcls names]]. rewrite Hc. reflexivity.
Qed.

(** C1, as the code has it, on an instance whose handlers are those the
    spec describes: a call that returns leaves every kind's current session
    and the active contexts as they were before it, provided that each
    session the call switches away from is stored under an alias; a current
    session without an alias is not switched back.  The implementations are
    taken not to change the instance themselves; identifiers, aliases and
    named arguments are unique, as attribute names and dictionary keys
    are. *)
Theorem call_restores_sessions_and_contexts (cls : string)
  (handlers : list (string * SessionHandler)) (self : Keyword SpecLib)
  (args : list Value) (kwargs : Kwargs) (w w' : World SpecLib) (result : Value) :
  NoDup (session_identifiers handlers) ->
  NoDup (dict_keys kwargs) ->
  (forall plural_identifier,
      NoDup (dict_keys (spec_get_sessions plural_identifier (lib w)))) ->
  (forall hcls, In hcls (context_handlers self) ->
                ~ In (str_lower (ch_name hcls)) (session_identifiers handlers)) ->
  (forall impl, impl = f_base (func self) \/ In impl (map snd (f_contexts (func self))) ->
                forall l a k, snd (impl_run impl l a k) = l) ->
  previous_sessions_stored handlers kwargs (lib w) = true ->
  __call__ (libinstance := spec_library cls handlers) self args kwargs w
  = (inr result, w') ->
  (forall identifier,
      spec_get_session identifier (lib w') = spec_get_session identifier (lib w))
  /\ spec_contexts (lib w') = spec_contexts (lib w).
Proof.
  intros Hids Hnd Halias Hctx Himpl Hstored Hcall.
  destruct (call_returns_inv _ _ _ _ _ _ Hcall) as [cs [cc [w3 [Hsd Hback]]]].
  destruct (switch_and_dispatch_returns_inv _ _ _ _ _ _ _ _ Hsd)
    as [kwargs1 [w1 [kwargs2 [w2 [Hss [Hsc Hd]]]]]].
  destruct (switch_back_returns_inv _ _ _ _ Hback) as [w4 [Hrc Hrs]].
  cbn [session_handlers spec_library] in Hss.
  (* the session loop *)
  assert (P1 : sessions_recorded handlers (lib w) cs (lib w1)).
  { apply (spec_switch_sessions_inv cls handlers (lib w) kwargs Hstored
             handlers kwargs kwargs1 [] cs w w1 None);
      [apply incl_refl | exact Hnd | apply incl_refl | intros key [] | | exact Hss].
    unfold sessions_recorded. split; [reflexivity|]. split; [reflexivity|].
    split; [reflexivity|]. split; [intros ? ? ? [] | reflexivity]. }
  destruct (switch_sessions_popped (libinstance := spec_library cls handlers)
              handlers kwargs kwargs1 [] cs w w1 None Hnd
              (fun k (H : In k []) => False_ind _ H) Hss) as [Hnd1 _].
  (* the context loop *)
  assert (P2 : contexts_recorded handlers (lib w1) cc (lib w2)).
  { apply (spec_switch_contexts_inv cls handlers (lib w1)
             (context_handlers self) kwargs1 kwargs2 [] cc w1 w2 None);
      [exact Hctx | exact Hnd1 | intros id [] | | exact Hsc].
    unfold contexts_recorded. split; [reflexivity|]. split; [reflexivity|].
    split; [reflexivity|]. split; [intros ? ? [] | reflexivity]. }
  (* the Keyword function *)
  assert (P3 : lib w3 = lib w2).
  { pose proof (dispatch_lib (libinstance := spec_library cls handlers)
                  self args kwargs2 w2 Himpl) as E.
    rewrite Hd in E. exact E. }
  destruct P1 as [A1 [A2 [A3 [A4 A5]]]]. destruct P2 as [B1 [B2 [B3 [B4 B5]]]].
  (* switching back *)
  destruct (spec_restore_contexts_inv cls handlers (lib w1) cc B4 w3 w4 Hrc)
    as [C1 [C2 [C3 C4]]].
  rewrite P3 in C1, C2, C3, C4.
  assert (Hst4 : sl_stored (lib w4) = sl_stored (lib w)) by congruence.
  destruct (spec_restore_sessions_inv cls handlers (lib w) cs Hids Halias A4 w4 w'
              Hst4 Hrs) as [D1 [D2 [D3 D4]]].
  split.
  - intros id. apply D4.
    destruct (in_dec string_dec id (map fst (dict_keys cs))) as [Hin|Hnot];
      [left; exact Hin | right].
    rewrite <- (A5 id Hnot). unfold spec_get_session. rewrite C3, B3. reflexivity.
  - apply spec_contexts_ext; [congruence|].
    intros id. rewrite D3, <- A3. apply C4.
    destruct (in_dec string_dec id (dict_keys cc)) as [Hin|Hnot];
      [left; exact Hin | right; apply B5; exact Hnot].
Qed.

Lemma NoDup_connection_key : NoDup (dict_keys [("connection", VStr "B")]).
Proof. distinct_strings. Qed.

Lemma conn_state_aliases (plural_identifier : string) :
  NoDup (dict_keys (spec_get_sessions plural_identifier conn_state)).
Proof.
  unfold spec_get_sessions. cbn.
  destruct (string_dec plural_identifier "connections"); cbn.
  - distinct_strings.
  - constructor.
Qed.

(** The call [Ping  connection=B] from the state where [A] is current: it
    returns, and [A] is current again. *)
Lemma call_restores_sessions_and_contexts_witness :
  spec_get_session "connection"
    (lib (snd (__call__ (libinstance := ConnLib) ping [] [("connection", VStr "B")]
                        (mkWorld conn_state []))))
  = spec_get_session "connection" conn_state.
Proof.
  refine (proj1 (call_restores_sessions_and_contexts "ConnLib"
                   [("Connection", connection_handler)] ping []
                   [("connection", VStr "B")] (mkWorld conn_state [])
                   (mkWorld conn_state
                      [EvSwitch AtSessionSwitch "connection" (VStr "B");
                       EvCall "ping" [] [];
                       EvSwitch AtSessionRestore "connection" (VStr "A")])
                   VNone _ NoDup_connection_key conn_state_aliases _ _ eq_refl eq_refl)
                "connection").
  - distinct_strings.
  - intros hcls [].
  - intros impl [->|[]] l a k. reflexivity.
Defined.

(** * Further properties of the Keyword handler *)

(** ** Named arguments are never dropped *)

Lemma dict_pop_length {V : Type} (k : string) (v : V) (d d' : dict string V) :
  dict_pop string_dec k d = Some (v, d') -> length d = S (length d').
Proof.
  unfold dict_pop. destruct (dict_get string_dec k d) as [v'|] eqn:Hget; [|discriminate].
  intros [= _ <-]. induction d as [|[k' x] d IH]; [discriminate|].
  cbn in *. destruct (string_dec k k'); [reflexivity|]. cbn. f_equal. auto.
Qed.

Lemma drain_posargs_length (names : list string) (kwargs : Kwargs) :
  length (fst (drain_posargs names kwargs)) + length (snd (drain_posargs names kwargs))
  = length kwargs.
Proof.
  revert kwargs. induction names as [|name names IH]; intros kwargs; [reflexivity|].
  cbn [drain_posargs].
  destruct (dict_pop string_dec name kwargs) as [[v kwargs']|] eqn:Hp; [|apply IH].
  specialize (IH kwargs'). destruct (drain_posargs names kwargs') as [posargs rest].
  cbn [fst snd length] in *. rewrite (dict_pop_length _ _ _ _ Hp). lia.
Qed.

Lemma key_value_varargs_length (keys declared : list string) (kwargs : Kwargs) :
  length (fst (key_value_varargs keys declared kwargs))
  + length (snd (key_value_varargs keys declared kwargs))
  = length kwargs.
Proof.
  revert kwargs. induction keys as [|key keys IH]; intros kwargs; [reflexivity|].
  cbn [key_value_varargs]. destruct (in_dec string_dec key declared); [apply IH|].
  destruct (dict_pop string_dec key kwargs) as [[v kwargs']|] eqn:Hp; [|apply IH].
  specialize (IH kwargs'). destruct (key_value_varargs keys declared kwargs') as [varargs rest].
  cbn [fst snd length] in *. rewrite (dict_pop_length _ _ _ _ Hp). lia.
Qed.

Section MoreDispatch.
Context {Lib : Type} {libinstance : LibraryInstance Lib}.

(** X1: reshaping loses no argument: the positional and named arguments
    passed on are, together, as many as the positional and named arguments
    received; each named argument is moved, turned into a literal, or left
    named. *)
Theorem reshape_keeps_every_argument (self : Keyword Lib) (args : list Value)
  (kwargs : Kwargs) :
  length (fst (reshape self args kwargs)) + length (snd (reshape self args kwargs))
  = length args + length kwargs.
Proof.
  unfold reshape.
  pose proof (drain_posargs_length
                (skipn (1 + length args) (as_args (argspec (func self)))) kwargs) as H1.
  destruct (drain_posargs _ kwargs) as [posargs kwargs1]. cbn [fst snd] in H1.
  pose proof (key_value_varargs_length (dict_keys kwargs1)
                (as_args (argspec (func self))) kwargs1) as H2.
  destruct (key_value_varargs _ _ kwargs1) as [varargs kwargs2]. cbn [fst snd] in *.
  rewrite !length_app. lia.
Qed.

(** ** The casts of positional arguments *)

Lemma cast_args_spec (args : list Value) (argtypes : list ArgType) (casted : list Value) :
  cast_args args argtypes = inr casted ->
  length casted = Nat.min (length args) (length argtypes)
  /\ forall i arg argtype,
       nth_error args i = Some arg -> nth_error argtypes i = Some argtype ->
       (at_isinstance argtype arg = true -> nth_error casted i = Some arg)
       /\ (at_isinstance argtype arg = false ->
           exists converted,
             at_call argtype arg = inr converted
             /\ nth_error casted i = Some converted).
Proof.
  revert argtypes casted. induction args as [|a args IH]; intros [|t ts] casted H;
    cbn in H; try (injection H as <-; split; [reflexivity|]; intros [|i] ? ?; discriminate).
  destruct (at_isinstance t a) eqn:Hi.
  - destruct (cast_args args ts) as [e|rest] eqn:Hr; [discriminate|].
    injection H as <-. destruct (IH ts rest Hr) as [Hl Hn]. split; [cbn; lia|].
    intros [|i] arg argtype Ha Ht; cbn in *.
    + injection Ha as <-. injection Ht as <-. split; [reflexivity | congruence].
    + apply Hn; assumption.
  - destruct (at_call t a) as [e|a'] eqn:Hc; [discriminate|].
    destruct (cast_args args ts) as [e|rest] eqn:Hr; [discriminate|].
    injection H as <-. destruct (IH ts rest Hr) as [Hl Hn]. split; [cbn; lia|].
    intros [|i] arg argtype Ha Ht; cbn in *.
    + injection Ha as <-. injection Ht as <-. split; [congruence|].
      intros _. exists a'. auto.
    + apply Hn; assumption.
Qed.

(** X2: when no constructor raises, the casts keep the number of
    positional arguments; an argument that is an instance of its type is
    kept, another is replaced by the constructor's result, and the arguments
    beyond [func.argtypes] are passed as they are. *)
Theorem cast_keeps_instances (f : KeywordFunc Lib) (args args' : list Value)
  (w : World Lib) :
  fst (cast f args w) = inr args' ->
  let argtypes := match f_argtypes f with Some ts => ts | None => [] end in
  length args' = length args
  /\ (forall i, length argtypes <= i -> nth_error args' i = nth_error args i)
  /\ (forall i arg argtype,
        nth_error args i = Some arg -> nth_error argtypes i = Some argtype ->
        (at_isinstance argtype arg = true -> nth_error args' i = Some arg)
        /\ (at_isinstance argtype arg = false ->
            exists converted,
              at_call argtype arg = inr converted
              /\ nth_error args' i = Some converted)).
Proof.
  unfold cast. destruct (f_argtypes f) as [[|t ts]|]; cbv zeta.
  - unfold ret. cbn [fst]. intros [= <-]. split; [reflexivity|]. split; [reflexivity|].
    intros [|i] ? ? ?; discriminate.
  - remember (t :: ts) as argtypes eqn:Hats.
    destruct (cast_args args argtypes) as [e|casted] eqn:Hc; [discriminate|].
    unfold ret. cbn [fst]. intros [= <-].
    destruct (cast_args_spec _ _ _ Hc) as [Hl Hn].
    split; [|split].
    + rewrite length_app, length_skipn, Hl. lia.
    + intros i Hi.
      destruct (Nat.le_gt_cases (length args) (length argtypes)) as [Hle|Hgt].
      * rewrite (proj2 (nth_error_None _ i)) by (rewrite length_app, length_skipn; lia).
        symmetry. apply nth_error_None. lia.
      * rewrite nth_error_app2 by lia. rewrite nth_error_skipn, Hl. f_equal. lia.
    + intros i arg argtype Ha Ht.
      assert (Hi : i < length casted).
      { rewrite Hl. apply Nat.min_glb_lt; apply nth_error_Some; congruence. }
      destruct (Hn i arg argtype Ha Ht) as [H1 H2]. split.
      * intros H. rewrite nth_error_app1 by exact Hi. auto.
      * intros H. destruct (H2 H) as [c [Hc1 Hc2]]. exists c.
        rewrite nth_error_app1 by exact Hi. auto.
  - unfold ret. cbn [fst]. intros [= <-]. split; [reflexivity|]. split; [reflexivity|].
    intros [|i] ? ? ?; discriminate.
Qed.

(** ** The choice of the implementation *)

(** X3: when no context that [func.contexts] has a variant for is active,
    the base implementation is the one called. *)
Theorem resolve_base_without_active_variant (f : KeywordFunc Lib)
  (active : list Context) :
  (forall context impl, In (context, impl) (f_contexts f) -> ~ In context active) ->
  resolve f active = f_base f.
Proof.
  unfold resolve. generalize (f_base f) as acc.
  induction (f_contexts f) as [|[c i] l IH]; intros acc H; [reflexivity|].
  cbn [fold_left]. destruct (in_dec Context_eq_dec c active) as [Hin|_].
  - exfalso. apply (H c i); [left; reflexivity | exact Hin].
  - apply IH. intros c' i' Hin. apply (H c' i'). right. exact Hin.
Qed.

(** X4: of the variants whose context is active, the one declared last in
    [func.contexts] is the one called, whatever was declared before it. *)
Theorem resolve_last_declared_wins (f : KeywordFunc Lib) (active : list Context)
  (before after : dict Context (Impl Lib)) (context : Context) (impl : Impl Lib) :
  f_contexts f = before ++ (context, impl) :: after ->
  In context active ->
  (forall context' impl', In (context', impl') after -> ~ In context' active) ->
  resolve f active = impl.
Proof.
  intros Hf Hin Hafter. unfold resolve. rewrite Hf, fold_left_app. cbn [fold_left].
  destruct (in_dec Context_eq_dec context active) as [_|n]; [|contradiction].
  clear Hf. generalize impl as acc.
  induction after as [|[c i] l IH]; intros acc; [reflexivity|].
  cbn [fold_left]. destruct (in_dec Context_eq_dec c active) as [Hc|_].
  - exfalso. apply (Hafter c i); [left; reflexivity | exact Hc].
  - apply IH. intros c' i' H. apply (Hafter c' i'). right. exact H.
Qed.

(** ** The argument spec *)

(** X5: an explicit argument list that is not empty is the argument spec,
    whatever the signature and the handlers are; an empty one counts as
    none, and the signature is used. *)
Theorem args_override (self : Keyword Lib) (doc : option string)
  (argtypes : option (list ArgType)) (base : Impl Lib)
  (variants : dict Context (Impl Lib))
  (override : list string) :
  func self = mkKeywordFunc doc (Some override) argtypes base variants ->
  (override <> [] -> args self = override)
  /\ (override = [] ->
      args self
      = args (mkKeyword (name self) (mkKeywordFunc doc None argtypes base variants))).
Proof.
  intros Hf. unfold args, any_auto_explicit, context_handlers. rewrite Hf. cbn.
  split.
  - destruct override; [congruence | reflexivity].
  - intros ->. reflexivity.
Qed.

(** X6: without an override, what [args] lists after the positional names
    is: [*varargs] when declared, then [**keywords] when declared, and
    otherwise [**options] when a handler class has [auto_explicit] set. *)
Theorem args_variadic_entries (self : Keyword Lib) :
  truthy_seq (f_args (func self)) = false ->
  let spec := argspec (func self) in
  skipn (length (tl (as_args spec))) (args self)
  = (if truthy_str (as_varargs spec)
     then [("*" ++ opt_str (as_varargs spec))%string] else [])
    ++ (if truthy_str (as_keywords spec)
        then [("**" ++ opt_str (as_keywords spec))%string]
        else if any_auto_explicit self then ["**options"] else []).
Proof.
  intros H spec. rewrite (args_no_override self H). unfold declared_entries. fold spec.
  set (positional := if truthy_seq (as_defaults spec)
                     then args_with_defaults (tl (as_args spec))
                            match as_defaults spec with Some d => d | None => [] end
                     else tl (as_args spec)).
  assert (Hl : length positional = length (tl (as_args spec))).
  { unfold positional. destruct (truthy_seq (as_defaults spec));
      [apply args_with_defaults_length | reflexivity]. }
  rewrite <- !app_assoc, <- Hl, skipn_app, skipn_all, Nat.sub_diag. cbn [skipn app].
  destruct (truthy_str (as_keywords spec)); rewrite ?app_nil_r; reflexivity.
Qed.

End MoreDispatch.

(** ** What reaches the dispatch *)

Section MoreProtocol.
Context {Lib : Type} {libinstance : LibraryInstance Lib}.

(** The first part of the call after both loops ended without error. *)
Lemma switch_and_dispatch_at_dispatch (self : Keyword Lib) (args : list Value)
  (kwargs kwargs1 kwargs2 : Kwargs) (w0 w1 w2 : World Lib) (cs : RestoreSessions)
  (cc : RestoreContexts) :
  switch_sessions session_handlers kwargs [] w0 = (inr (None, kwargs1, cs), w1) ->
  switch_contexts (context_handlers self) kwargs1 [] w1 = (inr (None, kwargs2, cc), w2) ->
  switch_and_dispatch self args kwargs w0
  = match dispatch self args kwargs2 w2 with
    | (inl e, w3) => (inl e, w3)
    | (inr outcome, w3) => (inr (outcome, cs, cc), w3)
    end.
Proof.
  intros Hss Hsc. unfold switch_and_dispatch.
  rewrite (bind_ok _ _ _ _ _ Hss). cbv beta iota.
  rewrite (bind_ok _ _ _ _ _ Hsc). cbv beta iota.
  unfold bind. destruct (dispatch self args kwargs2 w2) as [[e|outcome] w3]; reflexivity.
Qed.

(** A first part that raises is the whole call. *)
Lemma call_when_first_part_raises (self : Keyword Lib) (args : list Value)
  (kwargs : Kwargs) (w0 w : World Lib) (e : Exn) :
  switch_and_dispatch self args kwargs w0 = (inl e, w) ->
  __call__ self args kwargs w0 = (inl e, w).
Proof. intros H. unfold __call__, bind. rewrite H. reflexivity. Qed.

(** X7: a constructor of [func.argtypes] that raises ends the call at
    once: the exception is the call's, and the sessions and contexts that
    were switched for the call are not switched back. *)
Theorem cast_error_skips_switch_back (self : Keyword Lib) (args : list Value)
  (kwargs kwargs1 kwargs2 : Kwargs) (w0 w1 w2 : World Lib) (cs : RestoreSessions)
  (cc : RestoreContexts) (e : Exn) :
  switch_sessions session_handlers kwargs [] w0 = (inr (None, kwargs1, cs), w1) ->
  switch_contexts (context_handlers self) kwargs1 [] w1 = (inr (None, kwargs2, cc), w2) ->
  fst (cast (func self) args w2) = inl e ->
  __call__ self args kwargs w0 = (inl e, w2).
Proof.
  intros Hss Hsc Hcast. apply call_when_first_part_raises.
  rewrite (switch_and_dispatch_at_dispatch self args _ _ _ _ _ _ _ _ Hss Hsc).
  unfold dispatch, bind at 1.
  pose proof (cast_pure (func self) args w2) as Hp.
  destruct (cast (func self) args w2) as [[e'|a] w']; cbn [fst snd] in *; [|discriminate].
  congruence.
Qed.

(** X8: an exception that is not an [Exception] leaves a direct call of
    the implementation uncaught: it is the call's exception, and nothing is
    switched back. *)
Theorem base_exception_escapes_direct_call (self : Keyword Lib) (args args' : list Value)
  (kwargs kwargs1 kwargs2 : Kwargs) (w0 w1 w2 : World Lib) (cs : RestoreSessions)
  (cc : RestoreContexts) (e : Exn) (l3 : Lib) :
  switch_sessions session_handlers kwargs [] w0 = (inr (None, kwargs1, cs), w1) ->
  switch_contexts (context_handlers self) kwargs1 [] w1 = (inr (None, kwargs2, cc), w2) ->
  fst (cast (func self) args w2) = inr args' ->
  calls_directly self kwargs2 = true ->
  let impl := resolve (func self) (contexts (lib w2)) in
  impl_run impl (lib w2) args' kwargs2 = (inl e, l3) ->
  isinstance_exc e "Exception" = false ->
  __call__ self args kwargs w0
  = (inl e, mkWorld l3 (log w2 ++ [EvCall (impl_name impl) args' kwargs2])).
Proof.
  intros Hss Hsc Hcast Hdirect impl Hrun Hexc. apply call_when_first_part_raises.
  rewrite (switch_and_dispatch_at_dispatch self args _ _ _ _ _ _ _ _ Hss Hsc).
  unfold dispatch.
  rewrite (bind_ok _ _ w2 w2 args' (cast_returns _ _ _ _ Hcast)).
  unfold read at 1. unfold bind at 1. fold impl. rewrite Hdirect.
  unfold bind, try_. rewrite invoke_eq, Hrun. cbn [fst snd]. rewrite Hexc. reflexivity.
Qed.

(** X9: a call whose switches and implementation all return gives the
    implementation's result, and ends in the state that switching back
    made of the state the implementation left. *)
Theorem call_returns_result (self : Keyword Lib) (args args' : list Value)
  (kwargs kwargs1 kwargs2 : Kwargs) (w0 w1 w2 : World Lib) (cs : RestoreSessions)
  (cc : RestoreContexts) (result : Value) (l3 : Lib) :
  switch_sessions session_handlers kwargs [] w0 = (inr (None, kwargs1, cs), w1) ->
  switch_contexts (context_handlers self) kwargs1 [] w1 = (inr (None, kwargs2, cc), w2) ->
  fst (cast (func self) args w2) = inr args' ->
  let impl := resolve (func self) (contexts (lib w2)) in
  let passed := if calls_directly self kwargs2 then (args', kwargs2)
                else reshape self args' kwargs2 in
  impl_run impl (lib w2) (fst passed) (snd passed) = (inr result, l3) ->
  let w3 := mkWorld l3 (log w2 ++ [EvCall (impl_name impl) (fst passed) (snd passed)]) in
  fst (switch_back cs cc w3) = inr tt ->
  __call__ self args kwargs w0 = (inr result, snd (switch_back cs cc w3)).
Proof.
  intros Hss Hsc Hcast impl passed Hrun w3 Hback.
  assert (Hd : dispatch self args kwargs2 w2 = (inr (inr result), w3)).
  { unfold dispatch.
    rewrite (bind_ok _ _ w2 w2 args' (cast_returns _ _ _ _ Hcast)).
    unfold read at 1. unfold bind at 1. fold impl.
    unfold passed in *. destruct (calls_directly self kwargs2).
    - unfold bind, try_. rewrite invoke_eq. cbn [fst snd] in *.
      rewrite Hrun. reflexivity.
    - destruct (reshape self args' kwargs2) as [a k]. cbn [fst snd] in *.
      unfold try_. rewrite invoke_eq, Hrun. reflexivity. }
  assert (Hsd : switch_and_dispatch self args kwargs w0 = (inr (inr result, cs, cc), w3)).
  { rewrite (switch_and_dispatch_at_dispatch self args _ _ _ _ _ _ _ _ Hss Hsc), Hd.
    reflexivity. }
  rewrite (call_after_dispatch _ _ _ _ _ _ _ _ Hsd), Hback. reflexivity.
Qed.

(** The session loop does nothing when no named argument is the
    identifier of a handler class with [auto_explicit] set. *)
Lemma switch_sessions_without_options (hs : list (string * SessionHandler))
  (kwargs : Kwargs) (cs : RestoreSessions) (w : World Lib) :
  (forall key, In key (dict_keys kwargs) -> session_option hs key = false) ->
  switch_sessions hs kwargs cs w = (inr (None, kwargs, cs), w).
Proof.
  induction hs as [|[n hcls] hs IH]; intros H; [reflexivity|].
  rewrite switch_sessions_skip.
  - apply IH. intros key Hk. specialize (H key Hk). cbn in H.
    apply orb_false_iff in H. tauto.
  - destruct (auto_explicit (meta hcls)) eqn:Ha; [right | left; reflexivity].
    unfold dict_pop.
    destruct (dict_get string_dec (identifier_name (meta hcls)) kwargs) eqn:Hget;
      [|reflexivity].
    apply dict_get_In, (in_map fst) in Hget. specialize (H _ Hget). cbn in H.
    rewrite Ha, String.eqb_refl in H. discriminate.
Qed.

Lemma switch_contexts_without_options (hs : list ContextHandler)
  (kwargs : Kwargs) (cc : RestoreContexts) (w : World Lib) :
  (forall key, In key (dict_keys kwargs) -> context_option hs key = false) ->
  switch_contexts hs kwargs cc w = (inr (None, kwargs, cc), w).
Proof.
  induction hs as [|hcls hs IH]; intros H; [reflexivity|].
  rewrite switch_contexts_skip.
  - apply IH. intros key Hk. specialize (H key Hk). cbn in H.
    apply orb_false_iff in H. tauto.
  - destruct (ctx_auto_explicit hcls) eqn:Ha; [right | left; reflexivity].
    unfold dict_pop.
    destruct (dict_get string_dec (str_lower (ch_name hcls)) kwargs) eqn:Hget;
      [|reflexivity].
    apply dict_get_In, (in_map fst) in Hget. specialize (H _ Hget). cbn in H.
    rewrite Ha, String.eqb_refl in H. discriminate.
Qed.

(** X10: when no named argument is the identifier of a session or context
    handler class with [auto_explicit] set, the call switches nothing and
    switches nothing back: it is the call of the Keyword function with the
    named arguments as given, and a captured error is raised. *)
Theorem call_without_options (self : Keyword Lib) (args : list Value) (kwargs : Kwargs)
  (w : World Lib) :
  (forall key, In key (dict_keys kwargs) ->
               session_option session_handlers key = false
               /\ context_option (context_handlers self) key = false) ->
  __call__ self args kwargs w
  = match dispatch self args kwargs w with
    | (inl e, w') => (inl e, w')
    | (inr (inl e), w') => (inl e, w')
    | (inr (inr result), w') => (inr result, w')
    end.
Proof.
  intros H.
  assert (Hss : switch_sessions session_handlers kwargs [] w = (inr (None, kwargs, []), w))
    by (apply switch_sessions_without_options; intros key Hk; apply (H key Hk)).
  assert (Hsc : switch_contexts (context_handlers self) kwargs [] w
                = (inr (None, kwargs, []), w))
    by (apply switch_contexts_without_options; intros key Hk; apply (H key Hk)).
  pose proof (switch_and_dispatch_at_dispatch self args _ _ _ _ _ _ _ _ Hss Hsc) as Hsd.
  destruct (dispatch self args kwargs w) as [[e|outcome] w'] eqn:Hd.
  - apply call_when_first_part_raises. exact Hsd.
  - rewrite (call_after_dispatch _ _ _ _ _ _ _ _ Hsd). cbn.
    destruct outcome; reflexivity.
Qed.

(** The named arguments left by a session loop that ended without error:
    those given, without the switching options. *)
Lemma switch_sessions_kwargs (hs : list (string * SessionHandler))
  (kwargs kwargs1 : Kwargs) (cs cs1 : RestoreSessions) (w w1 : World Lib) :
  NoDup (dict_keys kwargs) ->
  switch_sessions hs kwargs cs w = (inr (None, kwargs1, cs1), w1) ->
  kwargs1 = filter (fun kv => negb (session_option hs (fst kv))) kwargs.
Proof.
  revert kwargs cs w. induction hs as [|[n hcls] hs IH]; intros kwargs cs w Hnd H.
  - cbn in H. injection H as <- <- <-. symmetry.
    apply forallb_filter_id, forallb_forall. reflexivity.
  - destruct (auto_explicit (meta hcls)) eqn:Ha;
      [destruct (dict_pop string_dec (identifier_name (meta hcls)) kwargs)
         as [[sname kwargs']|] eqn:Hp|].
    + rewrite (switch_sessions_step n hcls hs kwargs kwargs' cs w sname Ha Hp) in H.
      cbv zeta in H.
      destruct (fst (switch (identifier_name (meta hcls)) sname (lib w))) as [e|];
        [destruct (isinstance_exc e (SessionError hcls)); discriminate|].
      destruct (dict_pop_spec _ _ _ _ Hnd Hp) as [_ [Hnd' _]].
      rewrite (IH _ _ _ Hnd' H).
      assert (E : kwargs' = dict_remove string_dec (identifier_name (meta hcls)) kwargs).
      { unfold dict_pop in Hp. destruct (dict_get string_dec _ kwargs); congruence. }
      rewrite E, (dict_remove_filter string_dec _ kwargs Hnd), filter_filter.
      apply filter_ext. intros [k v]. rewrite key_is_eqb. cbn. rewrite Ha. cbn.
      rewrite negb_orb. reflexivity.
    + rewrite switch_sessions_skip in H by auto. rewrite (IH _ _ _ Hnd H).
      apply filter_ext_in. intros [k v] Hin. cbn. rewrite Ha. cbn.
      destruct (String.eqb_spec (identifier_name (meta hcls)) k) as [E|_]; [|reflexivity].
      unfold dict_pop in Hp.
      destruct (dict_get string_dec (identifier_name (meta hcls)) kwargs) eqn:Hget;
        [discriminate|].
      apply dict_get_None in Hget. contradiction Hget. rewrite E.
      apply (in_map fst) in Hin. exact Hin.
    + rewrite switch_sessions_skip in H by auto. rewrite (IH _ _ _ Hnd H).
      apply filter_ext. intros [k v]. cbn. rewrite Ha. reflexivity.
Qed.

Lemma switch_contexts_kwargs (hs : list ContextHandler)
  (kwargs kwargs2 : Kwargs) (cc cc2 : RestoreContexts) (w w2 : World Lib) :
  NoDup (dict_keys kwargs) ->
  switch_contexts hs kwargs cc w = (inr (None, kwargs2, cc2), w2) ->
  kwargs2 = filter (fun kv => negb (context_option hs (fst kv))) kwargs.
Proof.
  revert kwargs cc w. induction hs as [|hcls hs IH]; intros kwargs cc w Hnd H.
  - cbn in H. injection H as <- <- <-. symmetry.
    apply forallb_filter_id, forallb_forall. reflexivity.
  - destruct (ctx_auto_explicit hcls) eqn:Ha;
      [destruct (dict_pop string_dec (str_lower (ch_name hcls)) kwargs)
         as [[ctxname kwargs']|] eqn:Hp|].
    + rewrite (switch_contexts_step hcls hs kwargs kwargs' cc w ctxname Ha Hp) in H.
      cbv zeta in H.
      destruct (fst (switch (str_lower (ch_name hcls)) ctxname (lib w))) as [e|];
        [destruct (isinstance_exc e (ContextError hcls)); discriminate|].
      destruct (dict_pop_spec _ _ _ _ Hnd Hp) as [_ [Hnd' _]].
      rewrite (IH _ _ _ Hnd' H).
      assert (E : kwargs' = dict_remove string_dec (str_lower (ch_name hcls)) kwargs).
      { unfold dict_pop in Hp. destruct (dict_get string_dec _ kwargs); congruence. }
      rewrite E, (dict_remove_filter string_dec _ kwargs Hnd), filter_filter.
      apply filter_ext. intros [k v]. rewrite key_is_eqb. cbn. rewrite Ha. cbn.
      rewrite negb_orb. reflexivity.
    + rewrite switch_contexts_skip in H by auto. rewrite (IH _ _ _ Hnd H).
      apply filter_ext_in. intros [k v] Hin. cbn. rewrite Ha. cbn.
      destruct (String.eqb_spec (str_lower (ch_name hcls)) k) as [E|_]; [|reflexivity].
      unfold dict_pop in Hp.
      destruct (dict_get string_dec (str_lower (ch_name hcls)) kwargs) eqn:Hget;
        [discriminate|].
      apply dict_get_None in Hget. contradiction Hget. rewrite E.
      apply (in_map fst) in Hin. exact Hin.
    + rewrite switch_contexts_skip in H by auto. rewrite (IH _ _ _ Hnd H).
      apply filter_ext. intros [k v]. cbn. rewrite Ha. reflexivity.
Qed.

(** X11: the named arguments that reach the Keyword function are those
    given, in their order, without the ones whose key is the identifier of a
    session or context handler class with [auto_explicit] set; no other
    named argument is taken out. *)
Theorem options_never_reach_the_function (self : Keyword Lib)
  (kwargs kwargs1 kwargs2 : Kwargs) (w0 w1 w2 : World Lib) (cs : RestoreSessions)
  (cc : RestoreContexts) :
  NoDup (dict_keys kwargs) ->
  switch_sessions session_handlers kwargs [] w0 = (inr (None, kwargs1, cs), w1) ->
  switch_contexts (context_handlers self) kwargs1 [] w1 = (inr (None, kwargs2, cc), w2) ->
  kwargs2
  = filter (fun kv => negb (session_option session_handlers (fst kv))
                      && negb (context_option (context_handlers self) (fst kv)))
           kwargs.
Proof.
  intros Hnd Hss Hsc.
  rewrite (switch_contexts_kwargs _ _ _ _ _ _ _
             (proj1 (switch_sessions_popped session_handlers kwargs kwargs1 [] cs
                       w0 w1 None Hnd (fun k (H : In k []) => False_ind _ H) Hss))
             Hsc).
  rewrite (switch_sessions_kwargs _ _ _ _ _ _ _ Hnd Hss). apply filter_filter.
Qed.

End MoreProtocol.

(** ** Errors of the switches *)

Section MoreSwitching.
Context {Lib : Type} {libinstance : LibraryInstance Lib}.

Lemma switch_contexts_app (pre post : list ContextHandler)
  (kwargs kwargs1 : Kwargs) (cc cc1 : RestoreContexts) (w w1 : World Lib) :
  switch_contexts pre kwargs cc w = (inr (None, kwargs1, cc1), w1) ->
  switch_contexts (pre ++ post) kwargs cc w = switch_contexts post kwargs1 cc1 w1.
Proof.
  revert kwargs cc w. induction pre as [|hcls pre IH]; intros kwargs cc w H.
  - cbn in H. injection H as <- <- <-. reflexivity.
  - rewrite <- app_comm_cons.
    destruct (ctx_auto_explicit hcls) eqn:Ha;
      [destruct (dict_pop string_dec (str_lower (ch_name hcls)) kwargs)
         as [[ctxname kwargs']|] eqn:Hp|].
    + rewrite (switch_contexts_step hcls _ kwargs kwargs' cc w ctxname Ha Hp) in H.
      rewrite (switch_contexts_step hcls _ kwargs kwargs' cc w ctxname Ha Hp).
      cbv zeta in H |- *.
      destruct (fst (switch (str_lower (ch_name hcls)) ctxname (lib w))) as [e|].
      * destruct (isinstance_exc e (ContextError hcls)); discriminate.
      * apply IH. exact H.
    + rewrite switch_contexts_skip in H by auto.
      rewrite switch_contexts_skip by auto. apply IH. exact H.
    + rewrite switch_contexts_skip in H by auto.
      rewrite switch_contexts_skip by auto. apply IH. exact H.
Qed.

(** The context loop logs only context switches of its handler classes. *)
Lemma switch_contexts_log (hs : list ContextHandler) (kwargs : Kwargs)
  (cc : RestoreContexts) (w : World Lib) :
  logged (switch_contexts hs kwargs cc) w
         (switch_event AtContextSwitch (context_identifiers hs)).
Proof.
  revert kwargs cc w. induction hs as [|hcls hs IH]; intros kwargs cc w.
  - apply logged_ret.
  - assert (Hincl : incl (context_identifiers hs) (context_identifiers (hcls :: hs)))
      by (apply incl_tl, incl_refl).
    unfold logged.
    destruct (switch_contexts_cases hcls hs kwargs cc w) as [-> | [ctxname [kwargs' [Ha Hp]]]].
    + eapply logged_impl; [|apply IH]. intros ev. apply switch_event_incl, Hincl.
    + rewrite (switch_contexts_step hcls hs kwargs kwargs' cc w ctxname Ha Hp).
      cbv zeta.
      assert (Hev : switch_event AtContextSwitch (context_identifiers (hcls :: hs))
                      (EvSwitch AtContextSwitch (str_lower (ch_name hcls)) ctxname)).
      { exists (str_lower (ch_name hcls)), ctxname. split; [left|]; reflexivity. }
      destruct (fst (switch (str_lower (ch_name hcls)) ctxname (lib w))) as [e|].
      * exists [EvSwitch AtContextSwitch (str_lower (ch_name hcls)) ctxname].
        destruct (isinstance_exc e (ContextError hcls)); cbn; auto.
      * match goal with
        | |- context [switch_contexts hs ?k ?c ?w'] =>
            destruct (IH k c w') as [evs [Hl Hf]]
        end.
        exists (EvSwitch AtContextSwitch (str_lower (ch_name hcls)) ctxname :: evs).
        split.
        -- rewrite Hl. cbn [log]. rewrite <- app_assoc. reflexivity.
        -- constructor; [exact Hev|].
           eapply Forall_impl; [|exact Hf]. intros ev. apply switch_event_incl, Hincl.
Qed.

Lemma switch_contexts_keys (hs : list ContextHandler) (kwargs kwargs1 : Kwargs)
  (cc cc1 : RestoreContexts) (w w1 : World Lib) (error : option Exn) :
  switch_contexts hs kwargs cc w = (inr (error, kwargs1, cc1), w1) ->
  forall key, In key (dict_keys cc1) ->
    In key (dict_keys cc) \/ In key (context_identifiers hs).
Proof.
  revert kwargs cc w. induction hs as [|hcls hs IH]; intros kwargs cc w H key Hkey.
  - cbn in H. injection H as <- <- <- <-. auto.
  - destruct (switch_contexts_cases hcls hs kwargs cc w) as [E | [ctxname [kwargs' [Ha Hp]]]].
    + rewrite E in H. destruct (IH _ _ _ H key Hkey); [auto | right; right; auto].
    + rewrite (switch_contexts_step hcls hs kwargs kwargs' cc w ctxname Ha Hp) in H.
      cbv zeta in H.
      destruct (fst (switch (str_lower (ch_name hcls)) ctxname (lib w))) as [e|].
      * destruct (isinstance_exc e (ContextError hcls)); [|discriminate].
        injection H as <- <- <- <-. auto.
      * destruct (IH _ _ _ H key Hkey) as [Hin | Hin]; [|right; right; auto].
        unfold dict_keys in Hin. apply in_map_iff in Hin.
        destruct Hin as [[k v] [<- Hin]]. apply dict_set_In in Hin.
        destruct Hin as [E | Hin].
        -- injection E as -> ->. right. left. reflexivity.
        -- left. apply (in_map fst) in Hin. exact Hin.
Qed.

(** X12: an exception of a session switch that is not the handler
    class's [SessionError] is not captured: it is the call's exception at
    once, and the sessions switched before it are not switched back. *)
Theorem unexpected_session_switch_error (self : Keyword Lib) (args : list Value)
  (kwargs kwargs1 kwargs1' : Kwargs) (w0 w1 : World Lib)
  (pre post : list (string * SessionHandler)) (n : string) (hcls : SessionHandler)
  (cs : RestoreSessions) (sname : Value) (e : Exn) :
  session_handlers = pre ++ (n, hcls) :: post ->
  switch_sessions pre kwargs [] w0 = (inr (None, kwargs1, cs), w1) ->
  auto_explicit (meta hcls) = true ->
  dict_pop string_dec (identifier_name (meta hcls)) kwargs1 = Some (sname, kwargs1') ->
  fst (switch (identifier_name (meta hcls)) sname (lib w1)) = Some e ->
  isinstance_exc e (SessionError hcls) = false ->
  __call__ self args kwargs w0
  = (inl e,
     mkWorld (snd (switch (identifier_name (meta hcls)) sname (lib w1)))
             (log w1 ++ [EvSwitch AtSessionSwitch (identifier_name (meta hcls)) sname])).
Proof.
  intros Hhs Hpre Ha Hp Hsw He. apply call_when_first_part_raises.
  unfold switch_and_dispatch. unfold bind at 1.
  rewrite Hhs, (switch_sessions_app pre _ _ _ _ _ _ _ Hpre).
  rewrite (switch_sessions_step n hcls post kwargs1 kwargs1' cs w1 sname Ha Hp).
  cbv zeta. rewrite Hsw, He. reflexivity.
Qed.

(** X13: an exception of a context switch that is not the handler
    class's [ContextError] is not captured either: it is the call's
    exception at once, and neither the contexts nor the sessions switched
    before it are switched back. *)
Theorem unexpected_context_switch_error (self : Keyword Lib) (args : list Value)
  (kwargs kwargs1 kwargs2 kwargs2' : Kwargs) (w0 w1 w2 : World Lib)
  (pre post : list ContextHandler) (hcls : ContextHandler)
  (cs : RestoreSessions) (cc : RestoreContexts) (ctxname : Value) (e : Exn) :
  switch_sessions session_handlers kwargs [] w0 = (inr (None, kwargs1, cs), w1) ->
  context_handlers self = pre ++ hcls :: post ->
  switch_contexts pre kwargs1 [] w1 = (inr (None, kwargs2, cc), w2) ->
  ctx_auto_explicit hcls = true ->
  dict_pop string_dec (str_lower (ch_name hcls)) kwargs2 = Some (ctxname, kwargs2') ->
  fst (switch (str_lower (ch_name hcls)) ctxname (lib w2)) = Some e ->
  isinstance_exc e (ContextError hcls) = false ->
  __call__ self args kwargs w0
  = (inl e,
     mkWorld (snd (switch (str_lower (ch_name hcls)) ctxname (lib w2)))
             (log w2 ++ [EvSwitch AtContextSwitch (str_lower (ch_name hcls)) ctxname])).
Proof.
  intros Hss Hhs Hpre Ha Hp Hsw He. apply call_when_first_part_raises.
  unfold switch_and_dispatch. rewrite (bind_ok _ _ _ _ _ Hss). cbv beta iota.
  unfold bind at 1.
  rewrite Hhs, (switch_contexts_app pre _ _ _ _ _ _ _ Hpre).
  rewrite (switch_contexts_step hcls post kwargs2 kwargs2' cc w2 ctxname Ha Hp).
  cbv zeta. rewrite Hsw, He. reflexivity.
Qed.

(** X14: when the switch of a context handler class raises its
    [ContextError] after the sessions and the context classes before it
    were switched, the Keyword function is not called and no further
    context is switched.  The call goes on to switch back what was recorded
    so far: the loop over [current_contexts] calls [switch_<identifier>]
    with the recorded context for the records in their order, and when it
    returned the loop over [current_sessions] runs; when both returned the
    [ContextError] is raised, and an exception of one of the loops is raised
    in its place. *)
Theorem context_error_stops_switching (self : Keyword Lib) (args : list Value)
  (kwargs kwargs1 kwargs2 kwargs2' : Kwargs) (w0 w1 w2 : World Lib)
  (pre post : list ContextHandler) (hcls : ContextHandler)
  (cs : RestoreSessions) (cc : RestoreContexts) (ctxname : Value) (e : Exn) :
  switch_sessions session_handlers kwargs [] w0 = (inr (None, kwargs1, cs), w1) ->
  context_handlers self = pre ++ hcls :: post ->
  switch_contexts pre kwargs1 [] w1 = (inr (None, kwargs2, cc), w2) ->
  ctx_auto_explicit hcls = true ->
  dict_pop string_dec (str_lower (ch_name hcls)) kwargs2 = Some (ctxname, kwargs2') ->
  fst (switch (str_lower (ch_name hcls)) ctxname (lib w2)) = Some e ->
  isinstance_exc e (ContextError hcls) = true ->
  let w3 := mkWorld (snd (switch (str_lower (ch_name hcls)) ctxname (lib w2)))
                    (log w2 ++ [EvSwitch AtContextSwitch (str_lower (ch_name hcls)) ctxname]) in
  let back_contexts := restore_contexts cc w3 in
  let back_sessions := restore_sessions cs (snd back_contexts) in
  switch_and_dispatch self args kwargs w0 = (inr (inl e, cs, cc), w3)
  /\ __call__ self args kwargs w0
     = match fst back_contexts with
       | inl e' => (inl e', snd back_contexts)
       | inr _ =>
           (match fst back_sessions with
            | inl e' => inl e'
            | inr _ => inl e
            end,
            snd back_sessions)
       end
  /\ (exists switched rest,
        cc = switched ++ rest
        /\ log (snd back_contexts)
           = log w3 ++ map (switch_of AtContextRestore) switched
        /\ (fst back_contexts = inr tt -> rest = []))
  /\ (exists before after,
        log (snd (__call__ self args kwargs w0))
        = log w1 ++ before
          ++ [EvSwitch AtContextSwitch (str_lower (ch_name hcls)) ctxname] ++ after
        /\ Forall (switch_event AtContextSwitch (context_identifiers pre)) before
        /\ Forall (fun ev => switch_event AtContextRestore (context_identifiers pre) ev
                             \/ switch_event AtSessionRestore (map fst (dict_keys cs)) ev)
                  after).
Proof.
  intros Hss Hhs Hpre Ha Hp Hsw He w3 back_contexts back_sessions.
  assert (Hsc : switch_contexts (context_handlers self) kwargs1 [] w1
                = (inr (Some e, kwargs2', cc), w3)).
  { rewrite Hhs, (switch_contexts_app pre _ _ _ _ _ _ _ Hpre).
    rewrite (switch_contexts_step hcls post kwargs2 kwargs2' cc w2 ctxname Ha Hp).
    cbv zeta. rewrite Hsw, He. reflexivity. }
  assert (Hsd : switch_and_dispatch self args kwargs w0 = (inr (inl e, cs, cc), w3)).
  { unfold switch_and_dispatch. rewrite (bind_ok _ _ _ _ _ Hss). cbv beta iota.
    rewrite (bind_ok _ _ _ _ _ Hsc). reflexivity. }
  split; [exact Hsd|].
  split; [exact (call_switches_back _ _ _ _ _ _ _ _ Hsd)|].
  split; [exact (restore_contexts_trace cc w3)|].
  rewrite (call_after_dispatch _ _ _ _ _ _ _ _ Hsd). cbn [fst snd].
  destruct (switch_contexts_log pre kwargs1 [] w1) as [before [Hb Hfb]].
  rewrite Hpre in Hb. cbn [snd] in Hb.
  destruct (switch_back_log cs cc w3) as [after [Hl Hfa]].
  exists before, after. split; [|split; [exact Hfb|]].
  - rewrite Hl. unfold w3. cbn [log]. rewrite Hb, <- !app_assoc. reflexivity.
  - eapply Forall_impl; [|exact Hfa]. intros ev [H | H]; [left | right; exact H].
    revert H. apply switch_event_incl. intros key Hkey.
    destruct (switch_contexts_keys _ _ _ _ _ _ _ _ Hpre key Hkey) as [[]|H]. exact H.
Qed.

(** X15: the [SessionError] that a session switch raised is raised by the
    call once the sessions of the classes before it are switched back; when
    switching back raises, that exception is raised instead. *)
Theorem session_error_reraised (self : Keyword Lib) (args : list Value)
  (kwargs kwargs1 kwargs1' : Kwargs) (w0 w1 : World Lib)
  (pre post : list (string * SessionHandler)) (n : string) (hcls : SessionHandler)
  (cs : RestoreSessions) (sname : Value) (e : Exn) :
  session_handlers = pre ++ (n, hcls) :: post ->
  switch_sessions pre kwargs [] w0 = (inr (None, kwargs1, cs), w1) ->
  auto_explicit (meta hcls) = true ->
  dict_pop string_dec (identifier_name (meta hcls)) kwargs1 = Some (sname, kwargs1') ->
  fst (switch (identifier_name (meta hcls)) sname (lib w1)) = Some e ->
  isinstance_exc e (SessionError hcls) = true ->
  let w2 := mkWorld (snd (switch (identifier_name (meta hcls)) sname (lib w1)))
                    (log w1 ++ [EvSwitch AtSessionSwitch (identifier_name (meta hcls)) sname]) in
  __call__ self args kwargs w0
  = (match fst (restore_sessions cs w2) with
     | inl e' => inl e'
     | inr _ => inl e
     end,
     snd (restore_sessions cs w2)).
Proof.
  intros Hhs Hpre Ha Hp Hsw He w2.
  destruct (call_after_session_error self args _ _ _ _ _ _ _ _ _ _ _ _
              Hhs Hpre Ha Hp Hsw He) as [Hsd _].
  rewrite (call_after_dispatch _ _ _ _ _ _ _ _ Hsd).
  unfold switch_back. cbn [restore_contexts]. unfold bind, ret. fold w2.
  destruct (restore_sessions cs w2) as [[e'|[]] w']; reflexivity.
Qed.

End MoreSwitching.

(** ** The switches a call makes, and the order of switching back *)

Section MoreRestore.
Context {Lib : Type} {libinstance : LibraryInstance Lib}.

(** X16: the session loop calls [switch_<identifier>] only for named
    arguments: each call is for a key that is the identifier of a handler
    class with [auto_explicit] set, with the value given under that key, and
    no identifier is switched twice. *)
Theorem session_switches_follow_kwargs (hs : list (string * SessionHandler))
  (kwargs : Kwargs) (cs : RestoreSessions) (w : World Lib) :
  NoDup (dict_keys kwargs) ->
  exists switched : list (string * Value),
    log (snd (switch_sessions hs kwargs cs w))
    = log w ++ map (switch_of AtSessionSwitch) switched
    /\ incl switched kwargs
    /\ NoDup (map fst switched)
    /\ Forall (fun kv => session_option hs (fst kv) = true) switched.
Proof.
  revert kwargs cs w. induction hs as [|[n hcls] hs IH]; intros kwargs cs w Hnd.
  - exists []. cbn. rewrite app_nil_r. repeat split; auto using incl_nil_l. constructor.
  - assert (Hopt : forall kv : string * Value,
               session_option hs (fst kv) = true ->
               session_option ((n, hcls) :: hs) (fst kv) = true)
      by (intros kv H; unfold session_option in *; cbn [existsb];
          rewrite H; apply orb_true_r).
    destruct (switch_sessions_cases n hcls hs kwargs cs w) as [-> | [sname [kwargs' [Ha Hp]]]].
    + destruct (IH kwargs cs w Hnd) as [sw [Hl [Hi [Hn Hf]]]].
      exists sw. repeat split; auto. eapply Forall_impl; [|exact Hf]. exact Hopt.
    + rewrite (switch_sessions_step n hcls hs kwargs kwargs' cs w sname Ha Hp). cbv zeta.
      destruct (dict_pop_spec _ _ _ _ Hnd Hp) as [Hget [Hnd' [Hnotin Hincl]]].
      assert (Hin : In (identifier_name (meta hcls), sname) kwargs)
        by (apply dict_get_In in Hget; exact Hget).
      assert (Hself : session_option ((n, hcls) :: hs) (identifier_name (meta hcls)) = true)
        by (unfold session_option; cbn [existsb snd];
            rewrite Ha, String.eqb_refl; reflexivity).
      assert (Hsub : incl kwargs' kwargs).
      { unfold dict_pop in Hp. rewrite Hget in Hp. injection Hp as <-.
        rewrite (dict_remove_filter string_dec _ kwargs Hnd). apply incl_filter. }
      destruct (fst (switch (identifier_name (meta hcls)) sname (lib w))) as [e|].
      * exists [(identifier_name (meta hcls), sname)].
        split; [destruct (isinstance_exc e (SessionError hcls)); reflexivity|].
        split; [intros x [<-|[]]; exact Hin|].
        split; [repeat constructor; intros []|]. repeat constructor. exact Hself.
      * match goal with
        | |- context [switch_sessions hs ?k ?c ?w'] =>
            destruct (IH k c w' Hnd') as [sw [Hl [Hi [Hn Hf]]]]
        end.
        exists ((identifier_name (meta hcls), sname) :: sw).
        split; [rewrite Hl; cbn [log map]; rewrite <- app_assoc; reflexivity|].
        split; [intros x [<-|Hx]; [exact Hin | apply Hsub, Hi, Hx]|].
        split.
        -- cbn [map fst]. constructor; [|exact Hn].
           intros H. apply Hnotin. apply in_map_iff in H. destruct H as [kv [E Hkv]].
           rewrite <- E. apply (in_map fst). apply Hi. exact Hkv.
        -- constructor; [exact Hself|]. eapply Forall_impl; [|exact Hf]. exact Hopt.
Qed.

(** X17: switching back does the contexts first and the sessions after
    them; when switching back a context raises, no session is switched
    back. *)
Theorem switch_back_contexts_first (cs : RestoreSessions) (cc : RestoreContexts)
  (w : World Lib) :
  exists of_contexts of_sessions,
    log (snd (switch_back cs cc w)) = log w ++ of_contexts ++ of_sessions
    /\ Forall (switch_event AtContextRestore (dict_keys cc)) of_contexts
    /\ Forall (switch_event AtSessionRestore (map fst (dict_keys cs))) of_sessions
    /\ forall e, fst (restore_contexts cc w) = inl e ->
                 of_sessions = [] /\ fst (switch_back cs cc w) = inl e.
Proof.
  destruct (restore_contexts_log cc w) as [evc [Hc Hfc]].
  unfold switch_back, bind.
  destruct (restore_contexts cc w) as [[e|[]] w'] eqn:Hr; cbn [snd fst] in *.
  - exists evc, []. rewrite app_nil_r. repeat split; auto; congruence.
  - destruct (restore_sessions_log cs w') as [evs [Hs Hfs]].
    exists evc, evs. rewrite Hs, Hc, app_assoc. repeat split; auto; discriminate.
Qed.

Lemma switch_to_instance_not_stored (identifier : string) (session : Ref)
  (items : list (Value * Ref)) (w : World Lib) :
  (forall alias, ~ In (alias, session) items) ->
  switch_to_instance identifier session items w = (inr tt, w).
Proof.
  induction items as [|[sname sinstance] items IH]; intros H; [reflexivity|].
  cbn [switch_to_instance]. unfold bind.
  destruct (Nat.eqb_spec sinstance session) as [->|_].
  - exfalso. apply (H sname). left. reflexivity.
  - cbn. apply IH. intros alias Hin. apply (H alias). right. exact Hin.
Qed.

(** X18: a recorded session that no alias of its kind stores is left
    alone by switching back: no switch is called for it, and the kind keeps
    the session the call switched to. *)
Theorem unstored_sessions_left_alone (cs : RestoreSessions) (w : World Lib) :
  (forall identifier plural_identifier session alias,
      In ((identifier, plural_identifier), session) cs ->
      ~ In (alias, session) (get_sessions plural_identifier (lib w))) ->
  restore_sessions cs w = (inr tt, w).
Proof.
  induction cs as [|[[identifier plural_identifier] session] cs IH]; intros H;
    [reflexivity|].
  cbn [restore_sessions]. unfold bind at 1, read. unfold bind.
  rewrite switch_to_instance_not_stored
    by (intros alias; apply (H identifier plural_identifier); left; reflexivity).
  apply IH. intros id pl s alias Hin. apply (H id pl). right. exact Hin.
Qed.


End MoreRestore.

(** ** The further properties on example calls *)

(** [kw(self, n, label)] with [argtypes=[int]] called with ["12"] and
    ["x"]: the first argument becomes [12], the second is kept. *)
Lemma cast_keeps_instances_witness :
  (exists converted,
      at_call int_type (VStr "12") = inr converted
      /\ nth_error [VInt 12; VStr "x"] 0 = Some converted)
  /\ nth_error [VInt 12; VStr "x"] 1 = nth_error [VStr "12"; VStr "x"] 1.
Proof.
  pose proof (cast_keeps_instances (func takes_int) [VStr "12"; VStr "x"]
                [VInt 12; VStr "x"] (mkWorld conn_state []) eq_refl) as [_ [H1 H2]].
  split.
  - exact (proj2 (H2 0 (VStr "12") int_type eq_refl eq_refl) eq_refl).
  - exact (H1 1 (le_n 1)).
Defined.

Lemma resolve_base_without_active_variant_witness :
  resolve (func with_variant) [] = f_base (func with_variant).
Proof.
  apply (resolve_base_without_active_variant (func with_variant) []).
  intros context impl _ [].
Defined.

(** [fast] and [high] are both active: the variant for [high], declared
    after the one for [fast], is called. *)
Lemma resolve_last_declared_wins_witness :
  resolve (func two_variants) (spec_contexts fast_high_state) = high_variant.
Proof.
  apply (resolve_last_declared_wins (func two_variants) (spec_contexts fast_high_state)
           [(fast, fast_variant)] [] high high_variant eq_refl).
  - right. left. reflexivity.
  - intros context' impl' [].
Defined.

Lemma args_override_witness :
  args (libinstance := ConnLib) with_override = ["a"; "b"].
Proof.
  apply (proj1 (args_override (libinstance := ConnLib) with_override _ _ _ _ _ eq_refl)).
  discriminate.
Defined.

Lemma args_variadic_entries_witness :
  skipn 1 (args (libinstance := ConnLib) x_rest) = ["*rest"; "**options"].
Proof.
  exact (args_variadic_entries (libinstance := ConnLib) x_rest eq_refl).
Defined.

(** [Kw  abc  connection=B]: [int("abc")] raises [ValueError] after the
    connection was switched to [B], and [B] stays current. *)
Lemma cast_error_skips_switch_back_witness :
  __call__ (libinstance := ConnLib) takes_int [VStr "abc"] [("connection", VStr "B")]
           (mkWorld conn_state [])
  = (inl (error_of "ValueError" "invalid literal for int()"),
     mkWorld (mkSpecLib (sl_stored conn_state) [("connection", 2)] [] [])
             [EvSwitch AtSessionSwitch "connection" (VStr "B")]).
Proof.
  exact (cast_error_skips_switch_back (libinstance := ConnLib) takes_int [VStr "abc"]
           [("connection", VStr "B")] [] []
           (mkWorld conn_state [])
           (mkWorld (mkSpecLib (sl_stored conn_state) [("connection", 2)] [] [])
                    [EvSwitch AtSessionSwitch "connection" (VStr "B")])
           (mkWorld (mkSpecLib (sl_stored conn_state) [("connection", 2)] [] [])
                    [EvSwitch AtSessionSwitch "connection" (VStr "B")])
           [(("connection", "connections"), 1)] []
           (error_of "ValueError" "invalid literal for int()")
           eq_refl eq_refl eq_refl).
Defined.

(** [Ping  connection=B] with an implementation that raises
    [KeyboardInterrupt]: [B] stays current. *)
Lemma base_exception_escapes_direct_call_witness :
  __call__ (libinstance := ConnLib) interrupted_ping [] [("connection", VStr "B")]
           (mkWorld conn_state [])
  = (inl keyboard_interrupt,
     mkWorld (mkSpecLib (sl_stored conn_state) [("connection", 2)] [] [])
             [EvSwitch AtSessionSwitch "connection" (VStr "B"); EvCall "ping" [] []]).
Proof.
  exact (base_exception_escapes_direct_call (libinstance := ConnLib) interrupted_ping
           [] [] [("connection", VStr "B")] [] []
           (mkWorld conn_state [])
           (mkWorld (mkSpecLib (sl_stored conn_state) [("connection", 2)] [] [])
                    [EvSwitch AtSessionSwitch "connection" (VStr "B")])
           (mkWorld (mkSpecLib (sl_stored conn_state) [("connection", 2)] [] [])
                    [EvSwitch AtSessionSwitch "connection" (VStr "B")])
           [(("connection", "connections"), 1)] [] keyboard_interrupt
           (mkSpecLib (sl_stored conn_state) [("connection", 2)] [] [])
           eq_refl eq_refl eq_refl eq_refl eq_refl eq_refl).
Defined.

(** [Close B  connection=B]: the result [42] is returned, [A] is current
    again, and [B] stays closed. *)
Lemma call_returns_result_witness :
  __call__ (libinstance := ConnLib) closes_b [] [("connection", VStr "B")]
           (mkWorld conn_state [])
  = (inr (VInt 42),
     mkWorld (mkSpecLib [("connections", [(VStr "A", 1)])] [("connection", 1)] [] [])
             [EvSwitch AtSessionSwitch "connection" (VStr "B");
              EvCall "close_b" [] [];
              EvSwitch AtSessionRestore "connection" (VStr "A")]).
Proof.
  exact (call_returns_result (libinstance := ConnLib) closes_b [] []
           [("connection", VStr "B")] [] []
           (mkWorld conn_state [])
           (mkWorld (mkSpecLib (sl_stored conn_state) [("connection", 2)] [] [])
                    [EvSwitch AtSessionSwitch "connection" (VStr "B")])
           (mkWorld (mkSpecLib (sl_stored conn_state) [("connection", 2)] [] [])
                    [EvSwitch AtSessionSwitch "connection" (VStr "B")])
           [(("connection", "connections"), 1)] [] (VInt 42)
           (mkSpecLib [("connections", [(VStr "A", 1)])] [("connection", 2)] [] [])
           eq_refl eq_refl eq_refl eq_refl eq_refl).
Defined.

Lemma call_without_options_witness :
  __call__ (libinstance := ConnLib) takes_x [] [("x", VInt 2)] (mkWorld conn_state [])
  = (inr VNone, mkWorld conn_state [EvCall "kw" [VInt 2] []]).
Proof.
  apply (call_without_options (libinstance := ConnLib) takes_x [] [("x", VInt 2)]
           (mkWorld conn_state [])).
  intros key [<-|[]]. split; reflexivity.
Defined.

Lemma NoDup_connection_foo :
  NoDup (dict_keys [("connection", VStr "B"); ("foo", VInt 1)]).
Proof. distinct_strings. Qed.

(** [Ping  connection=B  foo=1]: [foo=1] alone is left for the
    implementation. *)
Lemma options_never_reach_the_function_witness :
  [("foo", VInt 1)]
  = filter (fun kv => negb (session_option (session_handlers (LibraryInstance := ConnLib))
                                           (fst kv))
                      && negb (context_option (context_handlers ping) (fst kv)))
           [("connection", VStr "B"); ("foo", VInt 1)].
Proof.
  exact (options_never_reach_the_function (libinstance := ConnLib) ping
           [("connection", VStr "B"); ("foo", VInt 1)] [("foo", VInt 1)] [("foo", VInt 1)]
           (mkWorld conn_state [])
           (mkWorld (mkSpecLib (sl_stored conn_state) [("connection", 2)] [] [])
                    [EvSwitch AtSessionSwitch "connection" (VStr "B")])
           (mkWorld (mkSpecLib (sl_stored conn_state) [("connection", 2)] [] [])
                    [EvSwitch AtSessionSwitch "connection" (VStr "B")])
           [(("connection", "connections"), 1)] []
           NoDup_connection_foo eq_refl eq_refl).
Defined.

(** [Ping  connection=A] on the library whose switch raises
    [RuntimeError]. *)
Lemma unexpected_session_switch_error_witness :
  __call__ (libinstance := BrokenLib) broken_ping [] [("connection", VStr "A")]
           (mkWorld tt [])
  = (inl runtime_error,
     mkWorld tt [EvSwitch AtSessionSwitch "connection" (VStr "A")]).
Proof.
  exact (unexpected_session_switch_error (libinstance := BrokenLib) broken_ping []
           [("connection", VStr "A")] [("connection", VStr "A")] []
           (mkWorld tt []) (mkWorld tt [])
           [] [] "Connection" connection_handler [] (VStr "A") runtime_error
           eq_refl eq_refl eq_refl eq_refl eq_refl eq_refl).
Defined.

(** [Kw  mode=safe] on an instance that has no [switch_mode]:
    [AttributeError] is the call's exception. *)
Lemma unexpected_context_switch_error_witness :
  __call__ (libinstance := PlainLib) with_variant [] [("mode", VStr "safe")]
           (mkWorld conn_state [])
  = (inl (error_of "AttributeError" "mode"),
     mkWorld conn_state [EvSwitch AtContextSwitch "mode" (VStr "safe")]).
Proof.
  exact (unexpected_context_switch_error (libinstance := PlainLib) with_variant []
           [("mode", VStr "safe")] [("mode", VStr "safe")] [("mode", VStr "safe")] []
           (mkWorld conn_state []) (mkWorld conn_state []) (mkWorld conn_state [])
           [] [] mode_handler [] [] (VStr "safe") (error_of "AttributeError" "mode")
           eq_refl eq_refl eq_refl eq_refl eq_refl eq_refl eq_refl).
Defined.

(** [Kw  connection=B  mode=safe  level=top] while [A] is current and
    [fast] and [high] are active: the connection is switched to [B] and the
    mode to [safe]; [Level] has no context [top], so no implementation is
    called; the mode is switched back to [fast] and the connection to [A],
    and the [LevelError] is raised. *)
Lemma context_error_stops_switching_witness :
  __call__ (libinstance := ConnLib) two_variants []
           [("connection", VStr "B"); ("mode", VStr "safe"); ("level", VStr "top")]
           (mkWorld conn_fast_high_state [])
  = (inl (error_of "LevelError" "Context not found"),
     mkWorld conn_fast_high_state
       [EvSwitch AtSessionSwitch "connection" (VStr "B");
        EvSwitch AtContextSwitch "mode" (VStr "safe");
        EvSwitch AtContextSwitch "level" (VStr "top");
        EvSwitch AtContextRestore "mode" (VStr "fast");
        EvSwitch AtSessionRestore "connection" (VStr "A")]).
Proof.
  exact (proj1 (proj2
           (context_error_stops_switching (libinstance := ConnLib) two_variants []
              [("connection", VStr "B"); ("mode", VStr "safe"); ("level", VStr "top")]
              [("mode", VStr "safe"); ("level", VStr "top")]
              [("level", VStr "top")] []
              (mkWorld conn_fast_high_state [])
              (mkWorld (mkSpecLib (sl_stored conn_fast_high_state) [("connection", 2)]
                          (sl_handlers conn_fast_high_state)
                          (sl_context conn_fast_high_state))
                       [EvSwitch AtSessionSwitch "connection" (VStr "B")])
              (mkWorld (mkSpecLib (sl_stored conn_fast_high_state) [("connection", 2)]
                          (sl_handlers conn_fast_high_state)
                          [("mode", "safe"); ("level", "high")])
                       [EvSwitch AtSessionSwitch "connection" (VStr "B");
                        EvSwitch AtContextSwitch "mode" (VStr "safe")])
              [mode_handler] [] level_handler
              [(("connection", "connections"), 1)] [("mode", VStr "fast")]
              (VStr "top") (error_of "LevelError" "Context not found")
              eq_refl eq_refl eq_refl eq_refl eq_refl eq_refl eq_refl))).
Defined.

(** [Ping  connection=B  device=Q]: the connection is switched back to
    [A], then the [DeviceError] is raised. *)
Lemma session_error_reraised_witness :
  __call__ (libinstance := LabLib) ping []
           [("connection", VStr "B"); ("device", VStr "Q")] (mkWorld lab_state [])
  = (inl (error_of "DeviceError" "Session not found"),
     mkWorld lab_state
       [EvSwitch AtSessionSwitch "connection" (VStr "B");
        EvSwitch AtSessionSwitch "device" (VStr "Q");
        EvSwitch AtSessionRestore "connection" (VStr "A")]).
Proof.
  exact (session_error_reraised (libinstance := LabLib) ping []
           [("connection", VStr "B"); ("device", VStr "Q")]
           [("device", VStr "Q")] []
           (mkWorld lab_state [])
           (mkWorld (mkSpecLib (sl_stored lab_state)
                               [("connection", 2); ("device", 10)] [] [])
                    [EvSwitch AtSessionSwitch "connection" (VStr "B")])
           [("Connection", connection_handler)] [] "Device" device_handler
           [(("connection", "connections"), 1)] (VStr "Q")
           (error_of "DeviceError" "Session not found")
           eq_refl eq_refl eq_refl eq_refl eq_refl eq_refl).
Defined.

Lemma session_switches_follow_kwargs_witness :
  exists switched : list (string * Value),
    log (snd (switch_sessions (libinstance := LabLib)
                [("Connection", connection_handler); ("Device", device_handler)]
                [("connection", VStr "B"); ("device", VStr "Q")] []
                (mkWorld lab_state [])))
    = [] ++ map (switch_of AtSessionSwitch) switched
    /\ incl switched [("connection", VStr "B"); ("device", VStr "Q")]
    /\ NoDup (map fst switched)
    /\ Forall (fun kv => session_option
                           [("Connection", connection_handler); ("Device", device_handler)]
                           (fst kv) = true) switched.
Proof.
  exact (session_switches_follow_kwargs (libinstance := LabLib)
           [("Connection", connection_handler); ("Device", device_handler)]
           [("connection", VStr "B"); ("device", VStr "Q")] []
           (mkWorld lab_state []) NoDup_two_keys).
Defined.

(** The recorded connection [3] has no alias: switching back does
    nothing. *)
Lemma unstored_sessions_left_alone_witness :
  restore_sessions (libinstance := ConnLib) [(("connection", "connections"), 3)]
                   (mkWorld conn_state [])
  = (inr tt, mkWorld conn_state []).
Proof.
  apply (unstored_sessions_left_alone (libinstance := ConnLib)).
  intros identifier plural_identifier session alias [E|[]] Hin.
  injection E as <- <- <-. cbn in Hin.
  destruct Hin as [H|[H|[]]]; discriminate.
Defined.


Section MoreContexts.
Context {Lib : Type} {libinstance : LibraryInstance Lib}.

(** X20: when switching back the contexts returns, it called
    [switch_<identifier>] exactly once for every record of
    [current_contexts], in the order of the records, each with the context
    recorded for the identifier. *)
Theorem restore_contexts_switches_records (cc : RestoreContexts) (w : World Lib) :
  fst (restore_contexts cc w) = inr tt ->
  log (snd (restore_contexts cc w)) = log w ++ map (switch_of AtContextRestore) cc.
Proof.
  revert w. induction cc as [|[identifier ctxname] cc IH]; intros w.
  - cbn. rewrite app_nil_r. reflexivity.
  - cbn [restore_contexts]. unfold bind. rewrite do_switch_eq.
    destruct (fst (switch identifier ctxname (lib w))) as [e|]; [discriminate|].
    intros H. rewrite (IH _ H). cbn [log map]. rewrite <- app_assoc. reflexivity.
Qed.

End MoreContexts.

(** [fast] was recorded for [mode]: it is switched back to. *)
Lemma restore_contexts_switches_records_witness :
  log (snd (restore_contexts (libinstance := PlainLib) [("mode", VStr "fast")]
              (mkWorld fast_state [])))
  = [EvSwitch AtContextRestore "mode" (VStr "fast")].
Proof.
  exact (restore_contexts_switches_records (libinstance := PlainLib)
           [("mode", VStr "fast")] (mkWorld fast_state []) eq_refl).
Defined.
